(** * Pearl-2P signaling server: room / host coordination engine

    A shallow embedding of the server of [README.md] (class
    [Pearl2PServer], version 1.0.1, the variant with rooms), followed by
    the properties of the connection lifecycle, the host election, the
    disconnect cascade and the routing of messages.  [send] is the same
    method in [pearl.js] (version 1.0.0).

    JavaScript objects are shared by reference: the [Peer] object built at
    connection time is held by the registry [peers] and by the closures of
    the socket's event handlers.  The embedding therefore keeps a store of
    peer objects ([objects]) addressed by reference, and every handler
    takes the reference of the peer it was registered for. *)

From Stdlib Require Import Strings.Ascii Strings.Byte.
From stdpp Require Import gmap strings list fin_maps.

Open Scope string_scope.
Open Scope list_scope.
Open Scope stdpp_scope.

(** ** Data model *)

(** [socket.readyState] of the [ws] library. *)
Inductive ReadyState := CONNECTING | OPEN | CLOSING | CLOSED.

#[global] Instance ReadyState_eq_dec : EqDecision ReadyState.
Proof. solve_decision. Defined.

(** A parsed JSON value; [signal] and [data] payloads are relayed untouched. *)
#[warnings="-register-all"]
Inductive json :=
| JNull
| JBool (b : bool)
| JNum (n : Z)
| JStr (s : string)
| JArr (l : list json)
| JObj (l : list (string * json)).

(** [class Peer]: [roomKey] is [null] ([None]) or the key of a room. *)
Module Peer.
Record t := mk {
  socket : ReadyState;
  id : string;
  isAlive : bool;
  roomKey : option string;
  isHost : bool
}.
End Peer.

(** A room [{ hostId, peers }].  [peers] is a JavaScript [Set] of strings:
    it iterates in insertion order and holds no value twice, so it is a
    list on which [set_add] appends only an absent value. *)
Module Room.
Record t := mk {
  hostId : string;
  peers : list string
}.
End Room.

Definition set_add (x : string) (l : list string) : list string :=
  if decide (x ∈ l) then l else l ++ [x].

Definition set_delete (x : string) (l : list string) : list string :=
  filter (λ y, y ≠ x) l.

(** A reference to a [Peer] object: its index in the object store. *)
Abbreviation ref := nat.

(** [class Pearl2PServer]: the registry [peers] (id -> Peer object), the
    directory [rooms] (room key -> room), and the store of the peer
    objects that were ever built. *)
Record Pearl2PServer := mkServer {
  objects : list Peer.t;
  peers : gmap string ref;
  rooms : gmap string Room.t
}.

Definition init : Pearl2PServer :=
  {| objects := []; peers := ∅; rooms := ∅ |}.

(** ** Messages *)

(** Server -> peer messages, one constructor per [type] value, with the
    fields of the object literal that the code builds. *)
Inductive ServerMsg :=
| Welcome (id message : string)
| RoomCreated (role room message : string)
| RoomJoined (role room hostId : string)
| PeerJoined (peerId : string)
| PeerLeft (peerId : string)
| HostDisconnected (message : string)
| SignalTo (sender : string) (payload : option json)
| DataTo (sender : string) (payload : option json)
| Error (code : Z) (message : string).

Definition msg_type (m : ServerMsg) : string :=
  match m with
  | Welcome _ _ => "welcome"
  | RoomCreated _ _ _ => "room-created"
  | RoomJoined _ _ _ => "room-joined"
  | PeerJoined _ => "peer-joined"
  | PeerLeft _ => "peer-left"
  | HostDisconnected _ => "host-disconnected"
  | SignalTo _ _ => "signal"
  | DataTo _ _ => "data"
  | Error _ _ => "error"
  end.

(** The payload of [join-room].  The three fields are strings in the
    documented wire format; a field that is absent (or [null]) is [None].
    The code does not check the type of a field; the key of a payload with
    fields of other JSON types is [roomKeyOfValues] below. *)
Record JoinPayload := mkJoin {
  project : option string;
  instance : option string;
  room : option string
}.

(** Peer -> server messages after [JSON.parse]; [target] is [None] when the
    field is absent or is not a string (no registry key equals it then). *)
Inductive ClientMsg :=
| JoinRoom (payload : option JoinPayload)
| Signal (target : option string) (payload : option json)
| Data (target : option string) (payload : option json)
| OtherType (type : string)
| Unparseable.

(** A frame written to a socket: the receiving peer object and the message. *)
Definition Tx : Type := ref * ServerMsg.

(** ** Operations *)

(** JavaScript truthiness of an optional string: absent, [null] and the
    empty string are falsy. *)
Definition truthy (o : option string) : bool :=
  match o with
  | Some s => bool_decide (s ≠ "")
  | None => false
  end.

Definition hexDigit (n : N) : ascii :=
  match n with
  | 0 => "0" | 1 => "1" | 2 => "2" | 3 => "3" | 4 => "4" | 5 => "5"
  | 6 => "6" | 7 => "7" | 8 => "8" | 9 => "9" | 10 => "a" | 11 => "b"
  | 12 => "c" | 13 => "d" | 14 => "e" | _ => "f"
  end%N%char.

(** [Buffer.toString('hex')]. *)
Fixpoint toHex (bs : list byte) : string :=
  match bs with
  | [] => ""
  | b :: bs' =>
      String (hexDigit (Byte.to_N b / 16)) (String (hexDigit (Byte.to_N b mod 16)) (toHex bs'))
  end.

(** [generateId]: [crypto.randomBytes(4).toString('hex')]; the four random
    bytes are an input of the environment. *)
Definition generateId (randomBytes : list byte) : string := toHex randomBytes.

(** [send]: the frame is written only when the socket is [OPEN]. *)
Definition send (objs : list Peer.t) (peer : ref) (data : ServerMsg) : list Tx :=
  match objs !! peer with
  | Some p => if decide (Peer.socket p = OPEN) then [(peer, data)] else []
  | None => []
  end.

Definition sendError (objs : list Peer.t) (peer : ref) (code : Z) (msg : string) : list Tx :=
  send objs peer (Error code msg).

(** [handleConnection]: a new [Peer] object is built for the accepted
    socket, stored under the generated id, and greeted. *)
Definition handleConnection (s : Pearl2PServer) (socket : ReadyState)
    (randomBytes : list byte) : Pearl2PServer * list Tx :=
  let peerId := generateId randomBytes in
  let peer := length (objects s) in
  let objs := objects s ++ [Peer.mk socket peerId true None false] in
  (mkServer objs (<[peerId := peer]> (peers s)) (rooms s),
   send objs peer
     (Welcome peerId "Conectado ao Pearl-2P. Aguardando dados da sala (join-room).")).

(** [payload.instance || 'default']. *)
Definition orDefault (o : option string) (d : string) : string :=
  match o with
  | Some s => if bool_decide (s ≠ "") then s else d
  | None => d
  end.

(** The string put in a template literal for a field that passed the
    truthiness test. *)
Definition str (o : option string) : string := default "" o.

(** The room key [`${payload.project}#${instance}#${payload.room}`]. *)
Definition roomKeyOf (payload : JoinPayload) : string :=
  let instance := orDefault (instance payload) "default" in
  str (project payload) +:+ "#" +:+ instance +:+ "#" +:+ str (room payload).

(** The guard of [handleJoinRoom] negated:
    [payload && payload.project && payload.room]. *)
Definition validJoin (payload : option JoinPayload) : bool :=
  match payload with
  | Some pl => truthy (project pl) && truthy (room pl)
  | None => false
  end.

Definition asClient (p : Peer.t) (roomKey : string) : Peer.t :=
  Peer.mk (Peer.socket p) (Peer.id p) (Peer.isAlive p) (Some roomKey) false.

Definition asHost (p : Peer.t) (roomKey : string) : Peer.t :=
  Peer.mk (Peer.socket p) (Peer.id p) (Peer.isAlive p) (Some roomKey) true.

(** [handleJoinRoom]. *)
Definition handleJoinRoom (s : Pearl2PServer) (peer : ref)
    (payload : option JoinPayload) : Pearl2PServer * list Tx :=
  match objects s !! peer with
  | None => (s, [])
  | Some p =>
      match payload with
      | Some pl =>
          if truthy (project pl) && truthy (room pl) then
            let roomKey := roomKeyOf pl in
            match rooms s !! roomKey with
            | Some roomData =>
                let roomData' :=
                  Room.mk (Room.hostId roomData) (set_add (Peer.id p) (Room.peers roomData)) in
                let objs := <[peer := asClient p roomKey]> (objects s) in
                (mkServer objs (peers s) (<[roomKey := roomData']> (rooms s)),
                 send objs peer (RoomJoined "client" (str (room pl)) (Room.hostId roomData))
                 ++ match peers s !! Room.hostId roomData with
                    | Some hostPeer => send objs hostPeer (PeerJoined (Peer.id p))
                    | None => []
                    end)
            | None =>
                let newRoom := Room.mk (Peer.id p) [] in
                let objs := <[peer := asHost p roomKey]> (objects s) in
                (mkServer objs (peers s) (<[roomKey := newRoom]> (rooms s)),
                 send objs peer
                   (RoomCreated "host" (str (room pl)) "Você é o Host. Aguardando peers..."))
            end
          else (s, sendError (objects s) peer 400 "Dados de projeto/sala incompletos.")
      | None => (s, sendError (objects s) peer 400 "Dados de projeto/sala incompletos.")
      end
  end.

(** [routeSignal]. *)
Definition routeSignal (s : Pearl2PServer) (sender : ref) (target : option string)
    (payload : option json) : Pearl2PServer * list Tx :=
  match objects s !! sender with
  | None => (s, [])
  | Some p =>
      match target ≫= (λ targetId, peers s !! targetId) with
      | Some targetPeer => (s, send (objects s) targetPeer (SignalTo (Peer.id p) payload))
      | None => (s, sendError (objects s) sender 404 "Peer alvo desconectado.")
      end
  end.

(** [routeData]: there is no [else] branch. *)
Definition routeData (s : Pearl2PServer) (sender : ref) (target : option string)
    (payload : option json) : Pearl2PServer * list Tx :=
  match objects s !! sender with
  | None => (s, [])
  | Some p =>
      match target ≫= (λ targetId, peers s !! targetId) with
      | Some targetPeer => (s, send (objects s) targetPeer (DataTo (Peer.id p) payload))
      | None => (s, [])
      end
  end.

Definition resetRoomKey (p : Peer.t) : Peer.t :=
  Peer.mk (Peer.socket p) (Peer.id p) (Peer.isAlive p) None (Peer.isHost p).

(** The [roomData.peers.forEach] loop of [handleDisconnect]: every client
    id that is still registered is told that the host left, and the
    [roomKey] of its peer object is reset. *)
Fixpoint notifyClients (reg : gmap string ref) (objs : list Peer.t)
    (clients : list string) : list Peer.t * list Tx :=
  match clients with
  | [] => (objs, [])
  | clientId :: rest =>
      match reg !! clientId with
      | Some clientPeer =>
          let out := send objs clientPeer (HostDisconnected "O Host encerrou a sessão.") in
          let '(objs', outs) := notifyClients reg (alter resetRoomKey clientPeer objs) rest in
          (objs', out ++ outs)
      | None => notifyClients reg objs rest
      end
  end.

(** [handleDisconnect]. *)
Definition handleDisconnect (s : Pearl2PServer) (peer : ref) : Pearl2PServer * list Tx :=
  match objects s !! peer with
  | None => (s, [])
  | Some p =>
      let reg := delete (Peer.id p) (peers s) in
      match (if truthy (Peer.roomKey p) then Peer.roomKey p else None) with
      | Some roomKey =>
          match rooms s !! roomKey with
          | Some roomData =>
              if Peer.isHost p then
                let '(objs, out) := notifyClients reg (objects s) (Room.peers roomData) in
                (mkServer objs reg (delete roomKey (rooms s)), out)
              else
                let roomData' :=
                  Room.mk (Room.hostId roomData) (set_delete (Peer.id p) (Room.peers roomData)) in
                (mkServer (objects s) reg (<[roomKey := roomData']> (rooms s)),
                 match reg !! Room.hostId roomData with
                 | Some hostPeer => send (objects s) hostPeer (PeerLeft (Peer.id p))
                 | None => []
                 end)
          | None => (mkServer (objects s) reg (rooms s), [])
          end
      | None => (mkServer (objects s) reg (rooms s), [])
      end
  end.

(** [handleMessage]: dispatch on [data.type]; a frame that does not parse
    and an unknown type are only logged. *)
Definition handleMessage (s : Pearl2PServer) (sender : ref) (data : ClientMsg)
    : Pearl2PServer * list Tx :=
  match data with
  | JoinRoom payload => handleJoinRoom s sender payload
  | Signal target payload => routeSignal s sender target payload
  | Data target payload => routeData s sender target payload
  | OtherType _ => (s, [])
  | Unparseable => (s, [])
  end.

(** ** The event loop

    Handlers run to completion, one event at a time.  The environment
    accepts connections (choosing the socket and the random bytes),
    delivers frames, closes sockets, answers pings and changes the
    [readyState] of a socket.  [Ping] is one iteration of the heartbeat
    loop on a peer that answered the previous ping: [peer.isAlive = false]
    and a ping; [socket.terminate()] on a silent peer shows as a
    [SocketState] change followed, later, by [Close]. *)
Inductive Event :=
| Connection (socket : ReadyState) (randomBytes : list byte)
| Message (peer : ref) (data : ClientMsg)
| Close (peer : ref)
| Pong (peer : ref)
| Ping (peer : ref)
| SocketState (peer : ref) (st : ReadyState).

Definition setAlive (b : bool) (p : Peer.t) : Peer.t :=
  Peer.mk (Peer.socket p) (Peer.id p) b (Peer.roomKey p) (Peer.isHost p).

Definition setSocket (st : ReadyState) (p : Peer.t) : Peer.t :=
  Peer.mk st (Peer.id p) (Peer.isAlive p) (Peer.roomKey p) (Peer.isHost p).

Definition step (s : Pearl2PServer) (e : Event) : Pearl2PServer * list Tx :=
  match e with
  | Connection socket randomBytes => handleConnection s socket randomBytes
  | Message peer data => handleMessage s peer data
  | Close peer => handleDisconnect s peer
  | Pong peer =>
      (mkServer (alter (setAlive true) peer (objects s)) (peers s) (rooms s), [])
  | Ping peer =>
      (mkServer (alter (setAlive false) peer (objects s)) (peers s) (rooms s), [])
  | SocketState peer st =>
      (mkServer (alter (setSocket st) peer (objects s)) (peers s) (rooms s), [])
  end.

(** The state and the frames written after a history of events. *)
Fixpoint run (s : Pearl2PServer) (es : list Event) : Pearl2PServer * list Tx :=
  match es with
  | [] => (s, [])
  | e :: es' =>
      let '(s1, out1) := step s e in
      let '(s2, out2) := run s1 es' in
      (s2, out1 ++ out2)
  end.

Definition exec (es : list Event) : Pearl2PServer := (run init es).1.

(** ** Notions used by the properties *)

(** Well-formedness of a state: a registered id leads to a peer object
    that carries this id; a member set holds no id twice; a [roomKey] is
    never the empty string. *)
Record wf (s : Pearl2PServer) : Prop := mkWf {
  wf_registry : ∀ i r, peers s !! i = Some r →
                  ∃ p, objects s !! r = Some p ∧ Peer.id p = i;
  wf_members : ∀ k rm, rooms s !! k = Some rm → NoDup (Room.peers rm);
  wf_roomKey : ∀ r p, objects s !! r = Some p → Peer.roomKey p ≠ Some ""
}.

(** The peer objects that the [forEach] loop of a host's disconnect finds
    in the registry, in the order of the loop. *)
Definition notified (reg : gmap string ref) (clients : list string) : list ref :=
  omap (λ clientId, reg !! clientId) clients.

(** The frames of an output that were written to one peer. *)
Definition framesTo (peer : ref) (out : list Tx) : list Tx :=
  filter (λ e, e.1 = peer) out.

(** The frames of an output of one [type]. *)
Definition framesOfType (ty : string) (out : list Tx) : list Tx :=
  filter (λ e, msg_type e.2 = ty) out.

(** A run of [join-room] requests, each by a peer with its payload. *)
Definition joinEvents (reqs : list (ref * JoinPayload)) : list Event :=
  map (λ rq, Message rq.1 (JoinRoom (Some rq.2))) reqs.

(** Identity [x] is in the member set of the room stored under [k]. *)
Definition memberOf (s : Pearl2PServer) (x k : string) : Prop :=
  ∃ rm, rooms s !! k = Some rm ∧ x ∈ Room.peers rm.

(** No identity is in the member set of two rooms. *)
Definition singleRoom (s : Pearl2PServer) : Prop :=
  ∀ x k1 k2, memberOf s x k1 → memberOf s x k2 → k1 = k2.

(** The side condition on an event under which [singleRoom] is kept: a
    peer that sends a valid [join-room] is not in the member set of any
    room other than the one it joins. *)
Definition joinsFresh (s : Pearl2PServer) (e : Event) : Prop :=
  match e with
  | Message peer (JoinRoom (Some pl)) =>
      match objects s !! peer with
      | Some p =>
          validJoin (Some pl) = true →
          map_Forall (λ k rm, Peer.id p ∈ Room.peers rm → k = roomKeyOf pl) (rooms s)
      | None => True
      end
  | _ => True
  end.

#[global] Instance joinsFresh_dec s e : Decision (joinsFresh s e).
Proof.
  destruct e as [?|peer [[pl|]| | | |]| | | |]; simpl; try apply _.
  destruct (objects s !! peer); apply _.
Defined.

(** A history all of whose events meet the side condition, each in the
    state it is handled in. *)
Fixpoint freshRun (s : Pearl2PServer) (es : list Event) : Prop :=
  match es with
  | [] => True
  | e :: es' => joinsFresh s e ∧ freshRun (step s e).1 es'
  end.

#[global] Instance freshRun_dec s es : Decision (freshRun s es).
Proof. revert s. induction es as [|e es IH]; intros s; simpl; apply _. Defined.

(** The role of a peer object, read from its fields as [handleDisconnect]
    reads them. *)
Definition hostOf (s : Pearl2PServer) (peer : ref) (k : string) : Prop :=
  ∃ p, objects s !! peer = Some p ∧ Peer.isHost p = true ∧
       Peer.roomKey p = Some k ∧ is_Some (rooms s !! k).

Definition clientOf (s : Pearl2PServer) (peer : ref) (k : string) : Prop :=
  ∃ p, objects s !! peer = Some p ∧ Peer.isHost p = false ∧
       Peer.roomKey p = Some k ∧ is_Some (rooms s !! k).

(** What a peer object holds besides its socket. *)
Definition forget (p : Peer.t) : string * bool * option string * bool :=
  (Peer.id p, Peer.isAlive p, Peer.roomKey p, Peer.isHost p).

(** Two states that differ at most in the [readyState] of sockets. *)
Definition sameButSockets (s s' : Pearl2PServer) : Prop :=
  forget <$> objects s = forget <$> objects s' ∧
  peers s = peers s' ∧ rooms s = rooms s'.

(** ** Histories used as examples *)

Definition bytesA : list byte := [x00; x00; x00; x0a].
Definition bytesB : list byte := [x00; x00; x00; x0b].
Definition bytesC : list byte := [x00; x00; x00; x0c].

Definition gameBoss : JoinPayload := mkJoin (Some "game") None (Some "boss").
Definition gameLobby : JoinPayload := mkJoin (Some "game") None (Some "lobby").

(** One peer connects and its socket starts closing while the peer is
    still registered (the [close] event has not been handled yet). *)
Definition closingPeer : list Event :=
  [Connection OPEN bytesA; SocketState 0 CLOSING].

(** A (object 0) and B (object 1) connect; A creates the room
    [game#default#boss] and B joins it. *)
Definition hostAndClient : list Event :=
  [Connection OPEN bytesA; Connection OPEN bytesB;
   Message 0 (JoinRoom (Some gameBoss)); Message 1 (JoinRoom (Some gameBoss))].

(** A hosts [boss], B hosts [lobby], and C (object 2) joins both. *)
Definition twoRooms : list Event :=
  [Connection OPEN bytesA; Connection OPEN bytesB; Connection OPEN bytesC;
   Message 0 (JoinRoom (Some gameBoss)); Message 1 (JoinRoom (Some gameLobby));
   Message 2 (JoinRoom (Some gameBoss)); Message 2 (JoinRoom (Some gameLobby))].

(** Two tenants whose tuples differ in the project and in the instance. *)
Definition tenantAB : JoinPayload := mkJoin (Some "a#b") (Some "c") (Some "d").
Definition tenantA : JoinPayload := mkJoin (Some "a") (Some "b#c") (Some "d").

(** An event that neither accepts a connection nor handles a [join-room]
    request: the other messages, [close] events, pongs, pings and changes
    of a [readyState]. *)
Definition quiet (e : Event) : Prop :=
  match e with
  | Connection _ _ => False
  | Message _ (JoinRoom _) => False
  | _ => True
  end.

#[global] Instance quiet_dec e : Decision (quiet e).
Proof. destruct e as [?|? []| | | |]; simpl; apply _. Defined.

(** What is left in [s] of a peer whose disconnect was handled in [s0],
    where its peer object was [p]: the identity is not registered, the
    peer object keeps its identity, [roomKey] and [isHost], the rooms of
    [s] are rooms of [s0] with the same host, and a room that is stored
    under the peer's [roomKey] is one the peer is a client of and no
    member of. *)
Definition departed (s0 : Pearl2PServer) (peer : ref) (p : Peer.t) (s : Pearl2PServer) : Prop :=
  peers s !! Peer.id p = None ∧
  (∃ q, objects s !! peer = Some q ∧ Peer.id q = Peer.id p ∧
        Peer.roomKey q = Peer.roomKey p ∧ Peer.isHost q = Peer.isHost p) ∧
  (∀ k rm, rooms s !! k = Some rm →
     ∃ rm0, rooms s0 !! k = Some rm0 ∧ Room.hostId rm = Room.hostId rm0) ∧
  (∀ k rm, Peer.roomKey p = Some k → rooms s !! k = Some rm →
     Peer.isHost p = false ∧ Peer.id p ∉ Room.peers rm).

(** A hosts [game#default#boss] and disconnects; B creates the room again
    and C joins it. *)
Definition roomRecreated : list Event :=
  [Connection OPEN bytesA; Connection OPEN bytesB; Connection OPEN bytesC;
   Message 0 (JoinRoom (Some gameBoss)); Close 0;
   Message 1 (JoinRoom (Some gameBoss)); Message 2 (JoinRoom (Some gameBoss))].

(** ** The room key of any payload

    [handleJoinRoom] does not check that the fields of the payload are
    strings.  Whatever [JSON.parse] returned is tested for truthiness
    ([!payload.project], [payload.instance || 'default']) and rendered by
    the template literal, that is by the ToString of the language: the
    number [1] and the string with the one character 1 give the same key.
    Truthiness and ToString are functions of JavaScript, not of this
    program; the key is written here over any type of values with these
    two functions.  A field that is absent is [None]. *)
Section RoomKeyOfValues.
Context {V : Type} (truthyV : V → bool) (toStringV : V → string).

(** [payload.instance || 'default'], as the template literal renders it. *)
Definition instanceOf (instance : option V) : string :=
  match instance with
  | Some v => if truthyV v then toStringV v else "default"
  | None => "default"
  end.

(** [`${payload.project}#${instance}#${payload.room}`]. *)
Definition roomKeyOfValues (project : V) (instance : option V) (room : V) : string :=
  toStringV project +:+ "#" +:+ instanceOf instance +:+ "#" +:+ toStringV room.

End RoomKeyOfValues.

(** [i] is the id of a peer object that some connection built. *)
Definition knownId (s : Pearl2PServer) (i : string) : Prop :=
  ∃ r p, objects s !! r = Some p ∧ Peer.id p = i.

(** The characters of [Buffer.toString('hex')]. *)
Definition hexDigits : list ascii :=
  ["0"; "1"; "2"; "3"; "4"; "5"; "6"; "7"; "8"; "9"; "a"; "b"; "c"; "d"; "e"; "f"]%char.

(** ** The heartbeat

    The callback of [startHeartbeat] visits the registered peers in the
    order of the registry: a peer that did not answer the previous ping
    ([isAlive === false]) has its socket terminated; any other peer is
    marked silent and pinged.  [terminate] and [ping] are calls into the
    [ws] socket; they are recorded as commands, and what [terminate] does
    to the [readyState] is applied to the peer object.  The loop is the
    same in both versions of the server, so it is written once, over the
    peer type. *)

(** [socket.terminate()] of the [ws] library: a socket that is CLOSED is
    left alone; any other socket is CLOSING when the call returns (the
    connection is destroyed, the [close] event comes later). *)
Definition terminate (st : ReadyState) : ReadyState :=
  match st with
  | CLOSED => CLOSED
  | _ => CLOSING
  end.

Inductive SocketCmd :=
| Terminate (peer : ref)
| SendPing (peer : ref).

#[global] Instance SocketCmd_eq_dec : EqDecision SocketCmd.
Proof. solve_decision. Defined.

Section HeartbeatLoop.
Context {P : Type} (alive : P → bool) (silence kill : P → P).

Fixpoint heartbeatLoop (objs : list P) (order : list ref) : list P * list SocketCmd :=
  match order with
  | [] => (objs, [])
  | peer :: rest =>
      match objs !! peer with
      | Some p =>
          if alive p then
            let '(objs', cmds) := heartbeatLoop (<[peer := silence p]> objs) rest in
            (objs', SendPing peer :: cmds)
          else
            let '(objs', cmds) := heartbeatLoop (<[peer := kill p]> objs) rest in
            (objs', Terminate peer :: cmds)
      | None => heartbeatLoop objs rest
      end
  end.

End HeartbeatLoop.

(** The peer object after [peer.socket.terminate()]. *)
Definition terminated (p : Peer.t) : Peer.t := setSocket (terminate (Peer.socket p)) p.

(** The heartbeat of the server with rooms.  The registry is a [Map],
    visited in insertion order; the order is not part of [peers], so it is
    an argument: a list of the registered peer objects. *)
Definition heartbeat (s : Pearl2PServer) (order : list ref) : Pearl2PServer * list SocketCmd :=
  let '(objs, cmds) :=
    heartbeatLoop Peer.isAlive (setAlive false) terminated (objects s) order in
  (mkServer objs (peers s) (rooms s), cmds).

(** [order] lists the registered peer objects, each once. *)
Definition registryOrder (s : Pearl2PServer) (order : list ref) : Prop :=
  NoDup order ∧ ∀ r, r ∈ order ↔ ∃ i, peers s !! i = Some r.

(** ** The server of [pearl.js] (version 1.0.0)

    No rooms: peers signal each other by id, or broadcast to everybody. *)
Module V100.

(** [class Peer]; [room] is set to [null] and never assigned again. *)
Record Peer := mkPeer {
  socket : ReadyState;
  id : string;
  isAlive : bool;
  room : option string
}.

(** A JavaScript [Map] with string keys, in insertion order: [set] on a
    key that is present replaces the value in place, [set] on a new key
    appends, [delete] removes the entry. *)
Fixpoint mapSet {V : Type} (k : string) (v : V) (m : list (string * V)) : list (string * V) :=
  match m with
  | [] => [(k, v)]
  | e :: m' => if decide (e.1 = k) then (k, v) :: m' else e :: mapSet k v m'
  end.

Fixpoint mapGet {V : Type} (k : string) (m : list (string * V)) : option V :=
  match m with
  | [] => None
  | e :: m' => if decide (e.1 = k) then Some e.2 else mapGet k m'
  end.

Definition mapDelete {V : Type} (k : string) (m : list (string * V)) : list (string * V) :=
  filter (λ e, e.1 ≠ k) m.

(** [class Pearl2PServer]: the registry and the store of peer objects. *)
Record Server := mkServer {
  objects : list Peer;
  peers : list (string * ref)
}.

Definition init : Server := mkServer [] [].

Inductive ServerMsg :=
| Welcome (id message : string)
| SignalTo (sender : string) (payload : option json)
| Broadcast (sender : string) (payload : option json)
| Error (code : Z) (message : string).

Inductive ClientMsg :=
| Signal (target : option string) (payload : option json)
| BroadcastReq (payload : option json)
| OtherType (type : string)
| Unparseable.

Definition Tx : Type := ref * ServerMsg.

(** [send]. *)
Definition send (objs : list Peer) (peer : ref) (data : ServerMsg) : list Tx :=
  match objs !! peer with
  | Some p => if decide (socket p = OPEN) then [(peer, data)] else []
  | None => []
  end.

(** [handleConnection]. *)
Definition handleConnection (s : Server) (sock : ReadyState) (randomBytes : list byte)
    : Server * list Tx :=
  let peerId := generateId randomBytes in
  let peer := length (objects s) in
  let objs := objects s ++ [mkPeer sock peerId true None] in
  (mkServer objs (mapSet peerId peer (peers s)),
   send objs peer (Welcome peerId "Bem-vindo ao Pearl-2P Network")).

(** [routeSignal]. *)
Definition routeSignal (s : Server) (sender : ref) (target : option string)
    (payload : option json) : Server * list Tx :=
  match objects s !! sender with
  | None => (s, [])
  | Some p =>
      match target ≫= (λ targetId, mapGet targetId (peers s)) with
      | Some targetPeer => (s, send (objects s) targetPeer (SignalTo (id p) payload))
      | None =>
          (s, send (objects s) sender
                (Error 404 "Peer alvo não encontrado ou desconectado."))
      end
  end.

(** [broadcast]: to every registered peer whose id is not the sender's,
    in the order of the registry. *)
Definition broadcast (s : Server) (sender : ref) (payload : option json) : Server * list Tx :=
  match objects s !! sender with
  | None => (s, [])
  | Some p =>
      (s, (peers s).*2 ≫= (λ peer,
             match objects s !! peer with
             | Some q =>
                 if decide (id q ≠ id p)
                 then send (objects s) peer (Broadcast (id p) payload) else []
             | None => []
             end))
  end.

(** [handleDisconnect]: the registry entry is deleted, nothing else. *)
Definition handleDisconnect (s : Server) (peer : ref) : Server * list Tx :=
  match objects s !! peer with
  | None => (s, [])
  | Some p => (mkServer (objects s) (mapDelete (id p) (peers s)), [])
  end.

(** [handleMessage]: [join-room] and [data] are unknown types here. *)
Definition handleMessage (s : Server) (sender : ref) (data : ClientMsg) : Server * list Tx :=
  match data with
  | Signal target payload => routeSignal s sender target payload
  | BroadcastReq payload => broadcast s sender payload
  | OtherType _ => (s, [])
  | Unparseable => (s, [])
  end.

Definition setAlive (b : bool) (p : Peer) : Peer :=
  mkPeer (socket p) (id p) b (room p).

Definition setSocket (st : ReadyState) (p : Peer) : Peer :=
  mkPeer st (id p) (isAlive p) (room p).

(** The peer object after [peer.socket.terminate()]. *)
Definition terminated (p : Peer) : Peer := setSocket (terminate (socket p)) p.

(** The callback of [startHeartbeat]. *)
Definition heartbeat (s : Server) : Server * list SocketCmd :=
  let '(objs, cmds) :=
    heartbeatLoop isAlive (setAlive false) terminated (objects s) (peers s).*2 in
  (mkServer objs (peers s), cmds).

(** What the server writes or calls while it handles an event. *)
Inductive Effect :=
| Frame (peer : ref) (data : ServerMsg)
| Cmd (c : SocketCmd).

Inductive Event :=
| Connection (sock : ReadyState) (randomBytes : list byte)
| Message (peer : ref) (data : ClientMsg)
| Close (peer : ref)
| Pong (peer : ref)
| Heartbeat
| SocketState (peer : ref) (st : ReadyState).

Definition frames (out : list Tx) : list Effect := map (λ e, Frame e.1 e.2) out.

Definition step (s : Server) (e : Event) : Server * list Effect :=
  match e with
  | Connection sock randomBytes =>
      let '(s', out) := handleConnection s sock randomBytes in (s', frames out)
  | Message peer data => let '(s', out) := handleMessage s peer data in (s', frames out)
  | Close peer => let '(s', out) := handleDisconnect s peer in (s', frames out)
  | Pong peer => (mkServer (alter (setAlive true) peer (objects s)) (peers s), [])
  | Heartbeat => let '(s', cmds) := heartbeat s in (s', map Cmd cmds)
  | SocketState peer st => (mkServer (alter (setSocket st) peer (objects s)) (peers s), [])
  end.

Fixpoint run (s : Server) (es : list Event) : Server * list Effect :=
  match es with
  | [] => (s, [])
  | e :: es' =>
      let '(s1, out1) := step s e in
      let '(s2, out2) := run s1 es' in
      (s2, out1 ++ out2)
  end.

Definition exec (es : list Event) : Server := (run init es).1.

(** The registry holds no key twice, and the object stored under a key
    carries this key as its id. *)
Record wf (s : Server) : Prop := mkWf {
  wf_keys : NoDup (peers s).*1;
  wf_ids : ∀ k r, (k, r) ∈ peers s → ∃ p, objects s !! r = Some p ∧ id p = k
}.

End V100.

(** Three peers connect to the server of version 1.0.0; the socket of the
    third is already closing. *)
Definition v100_three : list V100.Event :=
  [V100.Connection OPEN bytesA; V100.Connection OPEN bytesB; V100.Connection CLOSING bytesC].

(** ** The scenario of the protocol description

    A creates the room, B joins it and signals A, A disconnects, and C
    signals an identity that does not exist. *)
Lemma protocol_scenario :
  (run init
     [Connection OPEN bytesA; Connection OPEN bytesB; Connection OPEN bytesC;
      Message 0 (JoinRoom (Some gameBoss));
      Message 1 (JoinRoom (Some gameBoss));
      Message 1 (Signal (Some "0000000a") (Some (JObj [("type", JStr "offer")])));
      Close 0;
      Message 2 (Signal (Some "nonexistent") None)]).2 =
  [(0, Welcome "0000000a" "Conectado ao Pearl-2P. Aguardando dados da sala (join-room).");
   (1, Welcome "0000000b" "Conectado ao Pearl-2P. Aguardando dados da sala (join-room).");
   (2, Welcome "0000000c" "Conectado ao Pearl-2P. Aguardando dados da sala (join-room).");
   (0, RoomCreated "host" "boss" "Você é o Host. Aguardando peers...");
   (1, RoomJoined "client" "boss" "0000000a");
   (0, PeerJoined "0000000b");
   (0, SignalTo "0000000b" (Some (JObj [("type", JStr "offer")])));
   (1, HostDisconnected "O Host encerrou a sessão.");
   (2, Error 404 "Peer alvo desconectado.")].
Proof. reflexivity. Qed.

(** ** Basic facts about the primitives *)

Lemma send_open objs peer p data :
  objs !! peer = Some p → Peer.socket p = OPEN → send objs peer data = [(peer, data)].
Proof. intros Hp Ho. unfold send. rewrite Hp. by rewrite decide_True. Qed.

Lemma send_not_open objs peer p data :
  objs !! peer = Some p → Peer.socket p ≠ OPEN → send objs peer data = [].
Proof. intros Hp Ho. unfold send. rewrite Hp. by rewrite decide_False. Qed.

Lemma elem_of_send objs peer data e :
  e ∈ send objs peer data →
  e = (peer, data) ∧ ∃ p, objs !! peer = Some p ∧ Peer.socket p = OPEN.
Proof.
  unfold send. destruct (objs !! peer) as [p|] eqn:Hp; [|by intros ?%elem_of_nil].
  case_decide; [|by intros ?%elem_of_nil].
  intros ->%list_elem_of_singleton. eauto.
Qed.

(** [send] reads nothing of the store but the [readyState] of the sockets. *)
Lemma send_ext objs objs' peer data :
  Peer.socket <$> objs = Peer.socket <$> objs' → send objs peer data = send objs' peer data.
Proof.
  intros Heq. unfold send.
  assert (Peer.socket <$> objs !! peer = Peer.socket <$> objs' !! peer) as Hl
    by (by rewrite <- !list_lookup_fmap, Heq).
  destruct (objs !! peer), (objs' !! peer); simplify_eq/=; try done.
  by rewrite Hl.
Qed.

Lemma set_add_NoDup x l : NoDup l → NoDup (set_add x l).
Proof.
  intros Hl. unfold set_add. case_decide; [done|].
  apply NoDup_app. split_and!; [done| |apply NoDup_singleton].
  intros y Hy ->%list_elem_of_singleton. done.
Qed.

Lemma elem_of_set_add x y l : y ∈ set_add x l ↔ y = x ∨ y ∈ l.
Proof.
  unfold set_add. case_decide.
  - split; [auto|]. intros [->|]; done.
  - rewrite elem_of_app, list_elem_of_singleton. tauto.
Qed.

Lemma elem_of_set_delete x y l : y ∈ set_delete x l ↔ y ≠ x ∧ y ∈ l.
Proof. unfold set_delete. by rewrite list_elem_of_filter. Qed.

Lemma set_delete_idemp x l : set_delete x (set_delete x l) = set_delete x l.
Proof. unfold set_delete. by apply list_filter_filter_r. Qed.

Lemma roomKeyOf_nonempty pl : roomKeyOf pl ≠ "".
Proof. unfold roomKeyOf. by destruct (str (project pl)). Qed.

(** ** The loop of a host's disconnect *)

Lemma resetRoomKey_socket (objs : list Peer.t) (c : ref) :
  Peer.socket <$> alter resetRoomKey c objs = Peer.socket <$> objs.
Proof.
  rewrite (list_fmap_alter _ _ (λ x, x)); [|by apply Forall_true].
  apply list_eq. intros i. rewrite list_lookup_alter.
  case_decide; [subst|done]. by destruct (_ !! _).
Qed.

Lemma notifyClients_out reg objs clients :
  (notifyClients reg objs clients).2 =
  notified reg clients ≫= (λ c, send objs c (HostDisconnected "O Host encerrou a sessão.")).
Proof.
  revert objs. induction clients as [|cid rest IH]; intros objs; [done|].
  unfold notified in *. simpl. destruct (reg !! cid) as [c|]; simpl; [|apply IH].
  specialize (IH (alter resetRoomKey c objs)).
  destruct (notifyClients reg (alter resetRoomKey c objs) rest) as [objs' outs].
  simpl in *. rewrite IH. f_equal.
  apply list_bind_ext; [|done]. intros r.
  apply send_ext, resetRoomKey_socket.
Qed.

Lemma notified_cons reg cid rest :
  notified reg (cid :: rest) =
  match reg !! cid with Some c => c :: notified reg rest | None => notified reg rest end.
Proof. done. Qed.

Lemma notifyClients_objects_notin reg objs clients r :
  r ∉ notified reg clients → (notifyClients reg objs clients).1 !! r = objs !! r.
Proof.
  revert objs. induction clients as [|cid rest IH]; intros objs; [done|].
  rewrite notified_cons. cbn [notifyClients].
  destruct (reg !! cid) as [c|]; [|apply IH].
  intros [Hne Hnin]%not_elem_of_cons.
  specialize (IH (alter resetRoomKey c objs) Hnin).
  destruct (notifyClients reg (alter resetRoomKey c objs) rest) as [objs' outs].
  simpl in *. by rewrite IH, list_lookup_alter_ne.
Qed.

Lemma notifyClients_objects_in reg objs clients r :
  r ∈ notified reg clients →
  (notifyClients reg objs clients).1 !! r = resetRoomKey <$> objs !! r.
Proof.
  revert objs. induction clients as [|cid rest IH]; intros objs.
  { by intros ?%elem_of_nil. }
  rewrite notified_cons. cbn [notifyClients].
  destruct (reg !! cid) as [c|]; [|apply IH].
  intros Hin.
  pose proof (notifyClients_objects_notin reg (alter resetRoomKey c objs) rest r) as Hout.
  specialize (IH (alter resetRoomKey c objs)).
  destruct (notifyClients reg (alter resetRoomKey c objs) rest) as [objs' outs].
  simpl in *.
  destruct (decide (r ∈ notified reg rest)) as [Hr|Hr].
  - rewrite IH by done. rewrite list_lookup_alter. case_decide; [subst|done].
    by destruct (objs !! r).
  - apply elem_of_cons in Hin as [->|?]; [|done].
    by rewrite Hout, list_lookup_alter_eq.
Qed.

Lemma elem_of_notified reg clients c :
  c ∈ notified reg clients ↔ ∃ m, m ∈ clients ∧ reg !! m = Some c.
Proof. unfold notified. by rewrite list_elem_of_omap. Qed.

(** ** Well-formedness is kept by every handler *)

Lemma wf_init : wf init.
Proof. split; intros *; by rewrite ?lookup_empty. Qed.

Lemma wf_handleConnection s socket randomBytes :
  wf s → wf (handleConnection s socket randomBytes).1.
Proof.
  intros [Hreg Hmem Hkey]. split; simpl; [|done|].
  - intros i r. rewrite lookup_insert. case_decide.
    + intros [= <-]. subst i. eexists.
      split; [by rewrite lookup_app_r, Nat.sub_diag|reflexivity].
    + intros (p & Hp & Hid)%Hreg. exists p. split; [|done].
      by apply lookup_app_l_Some.
  - intros r p [Hp|[_ Hp]]%lookup_app_Some; [by eapply Hkey|].
    apply list_lookup_singleton_Some in Hp as [_ <-]. done.
Qed.

Lemma wf_update_peer s peer p p' rms :
  wf s → objects s !! peer = Some p → Peer.id p' = Peer.id p →
  Peer.roomKey p' ≠ Some "" →
  (∀ k rm, rms !! k = Some rm → NoDup (Room.peers rm)) →
  wf (mkServer (<[peer := p']> (objects s)) (peers s) rms).
Proof.
  intros [Hreg Hmem Hkey] Hp Hid Hrk Hrms. split; simpl; [|done|].
  - intros i r (q & Hq & Hqi)%Hreg. destruct (decide (peer = r)) as [->|Hne].
    + exists p'. split; [|congruence].
      apply list_lookup_insert_eq. by eapply lookup_lt_Some.
    + exists q. by rewrite list_lookup_insert_ne.
  - intros r q. destruct (decide (peer = r)) as [->|Hne].
    + rewrite list_lookup_insert_eq by by eapply lookup_lt_Some. by intros [= <-].
    + rewrite list_lookup_insert_ne by done. apply Hkey.
Qed.

Lemma wf_handleJoinRoom s peer payload :
  wf s → wf (handleJoinRoom s peer payload).1.
Proof.
  intros Hwf. unfold handleJoinRoom.
  destruct (objects s !! peer) as [p|] eqn:Hp; [|done].
  destruct payload as [pl|]; [|done].
  destruct (truthy (project pl) && truthy (room pl)); [|done].
  assert (Some (roomKeyOf pl) ≠ Some "") as Hne
    by (intros [= ?]; by eapply roomKeyOf_nonempty).
  destruct (rooms s !! roomKeyOf pl) as [rm|] eqn:Hrm; simpl.
  - eapply wf_update_peer; try done.
    intros k rm'. rewrite lookup_insert. case_decide.
    + intros [= <-]. simpl. eapply set_add_NoDup, wf_members; eauto.
    + by apply wf_members.
  - eapply wf_update_peer; try done.
    intros k rm'. rewrite lookup_insert. case_decide.
    + intros [= <-]. apply NoDup_nil_2.
    + by apply wf_members.
Qed.

Lemma wf_handleDisconnect s peer : wf s → wf (handleDisconnect s peer).1.
Proof.
  intros Hwf. unfold handleDisconnect.
  destruct (objects s !! peer) as [p|] eqn:Hp; [|done].
  assert (∀ i r, delete (Peer.id p) (peers s) !! i = Some r →
                 ∃ q, objects s !! r = Some q ∧ Peer.id q = i) as Hreg.
  { intros i r [_ Hl]%lookup_delete_Some. by eapply wf_registry. }
  assert (wf (mkServer (objects s) (delete (Peer.id p) (peers s)) (rooms s))) as Hwf0.
  { destruct Hwf. by split. }
  destruct (if truthy (Peer.roomKey p) then Peer.roomKey p else None) as [k|]; [|done].
  destruct (rooms s !! k) as [rm|] eqn:Hrm; [|done].
  destruct (Peer.isHost p).
  - pose proof (notifyClients_objects_in (delete (Peer.id p) (peers s)) (objects s)
                  (Room.peers rm)) as Hin.
    pose proof (notifyClients_objects_notin (delete (Peer.id p) (peers s)) (objects s)
                  (Room.peers rm)) as Hnin.
    destruct (notifyClients _ _ _) as [objs out]. simpl in *.
    assert (∀ r, objs !! r = objects s !! r ∨ objs !! r = resetRoomKey <$> objects s !! r)
      as Hobjs.
    { intros r. destruct (decide (r ∈ notified (delete (Peer.id p) (peers s)) (Room.peers rm)));
        [right|left]; auto. }
    split; simpl.
    + intros i r (q & Hq & Hqi)%Hreg.
      destruct (Hobjs r) as [->| ->]; [eauto|]. rewrite Hq. eauto.
    + intros k' rm' [_ ?]%lookup_delete_Some. by eapply wf_members.
    + intros r q. destruct (Hobjs r) as [->| ->]; [by apply wf_roomKey|].
      destruct (objects s !! r); [|done]. by intros [= <-].
  - split; simpl; [done| |by apply wf_roomKey].
    intros k' rm'. rewrite lookup_insert. case_decide.
    + intros [= <-]. simpl. unfold set_delete. eapply NoDup_filter, wf_members; eauto.
    + by apply wf_members.
Qed.

Lemma wf_alter s (f : Peer.t → Peer.t) peer :
  (∀ p, Peer.id (f p) = Peer.id p) → (∀ p, Peer.roomKey (f p) = Peer.roomKey p) →
  wf s → wf (mkServer (alter f peer (objects s)) (peers s) (rooms s)).
Proof.
  intros Hid Hrk [Hreg Hmem Hkey]. split; simpl; [|done|].
  - intros i r (q & Hq & Hqi)%Hreg. rewrite list_lookup_alter.
    case_decide; [subst|eauto]. rewrite Hq. simpl. eexists. split; [done|]. by rewrite Hid.
  - intros r q. rewrite list_lookup_alter. case_decide; [subst|apply Hkey].
    destruct (objects s !! r) as [q'|] eqn:Hq'; [|done].
    intros [= <-]. rewrite Hrk. by eapply Hkey.
Qed.

Lemma wf_handleMessage s sender data : wf s → wf (handleMessage s sender data).1.
Proof.
  intros Hwf. destruct data; simpl; try done.
  - by apply wf_handleJoinRoom.
  - unfold routeSignal. destruct (objects s !! sender); [|done]. by destruct (_ ≫= _).
  - unfold routeData. destruct (objects s !! sender); [|done]. by destruct (_ ≫= _).
Qed.

Lemma wf_step s e : wf s → wf (step s e).1.
Proof.
  intros Hwf. destruct e; simpl.
  - by apply wf_handleConnection.
  - by apply wf_handleMessage.
  - by apply wf_handleDisconnect.
  - by apply wf_alter.
  - by apply wf_alter.
  - by apply wf_alter.
Qed.

Lemma wf_run s es : wf s → wf (run s es).1.
Proof.
  revert s. induction es as [|e es IH]; intros s Hwf; [done|]. simpl.
  pose proof (wf_step s e Hwf) as H1. destruct (step s e) as [s1 o1].
  specialize (IH s1 H1). by destruct (run s1 es).
Qed.

Lemma wf_exec es : wf (exec es).
Proof. apply wf_run, wf_init. Qed.

(** ** Validation of [join-room] *)

Lemma validJoin_false payload :
  validJoin payload = false ↔
  payload = None ∨
  ∃ pl, payload = Some pl ∧
    (project pl = None ∨ project pl = Some "" ∨ room pl = None ∨ room pl = Some "").
Proof.
  destruct payload as [[[pr|] i [rm|]]|]; simpl; try (split; [eauto 10|done]).
  - rewrite andb_false_iff, !bool_decide_eq_false. split.
    + intros [Hp|Hr]; right; eexists; (split; [done|]); simpl.
      * right; left. f_equal. by destruct (decide (pr = "")).
      * do 3 right. f_equal. by destruct (decide (rm = "")).
    + intros [|(pl & [= <-] & [|[[= ->]|[|[= ->]]]])]; simplify_eq/=; auto.
  - rewrite andb_false_r. split; [|done]. intros _. right. eexists. split; [done|].
    simpl. auto.
Qed.

(** C9 (as amended): a [join-room] whose payload is missing, or whose
    [project] or [room] is absent or empty, mutates nothing - the state
    returned is the state given - and writes one [error] frame with code 400
    to the requester when the requester's socket is OPEN, and no frame at all
    when it is not. *)
Theorem join_invalid_payload s peer p payload :
  objects s !! peer = Some p →
  payload = None ∨
    (∃ pl, payload = Some pl ∧
       (project pl = None ∨ project pl = Some "" ∨ room pl = None ∨ room pl = Some "")) →
  handleJoinRoom s peer payload =
    (s, if decide (Peer.socket p = OPEN)
        then [(peer, Error 400 "Dados de projeto/sala incompletos.")] else []).
Proof.
  intros Hp Hbad%validJoin_false. unfold handleJoinRoom. rewrite Hp.
  unfold sendError, send. rewrite Hp.
  destruct payload as [pl|]; [|done]. simpl in Hbad. by rewrite Hbad.
Qed.

Lemma join_invalid_payload_witness :
  handleJoinRoom (exec [Connection OPEN bytesA]) 0
    (Some (mkJoin (Some "game") None (Some ""))) =
  (exec [Connection OPEN bytesA], [(0, Error 400 "Dados de projeto/sala incompletos.")]).
Proof.
  apply (join_invalid_payload (exec [Connection OPEN bytesA]) 0
           (Peer.mk OPEN "0000000a" true None false)).
  - reflexivity.
  - right. eexists. split; [reflexivity|]. simpl. auto.
Defined.

(** C9 (as stated) fails: the requester's socket is CLOSING, its
    [join-room] has no payload, and no [error] frame reaches it. *)
Lemma join_invalid_payload_closing_socket :
  ¬ ∃ m, (0, Error 400 m) ∈ (handleJoinRoom (exec closingPeer) 0 None).2.
Proof. intros [m Hm]. vm_compute in Hm. by apply elem_of_nil in Hm. Qed.

(** ** Disconnect of a client *)

Lemma truthy_roomKey es r p k :
  objects (exec es) !! r = Some p → Peer.roomKey p = Some k →
  (if truthy (Peer.roomKey p) then Peer.roomKey p else None) = Some k.
Proof.
  intros Hp Hk. pose proof (wf_roomKey _ (wf_exec es) r p Hp) as Hne.
  rewrite Hk in *. simpl. rewrite bool_decide_eq_true_2; [done|]. congruence.
Qed.

(** C8 (as amended): when a peer that is a client of an existing room
    disconnects, its identity is removed from the member set of the room,
    the room entry stays (with the same host, also when the member set
    becomes empty), and the only frame written is one [peer-left] carrying
    the departing identity, to the host, when the host identity is still
    in the registry after the peer's removal and the host's socket is
    OPEN; when the host's socket is not OPEN nothing is written. *)
Theorem client_disconnect es peer k p rm :
  objects (exec es) !! peer = Some p →
  clientOf (exec es) peer k →
  rooms (exec es) !! k = Some rm →
  let s' := (handleDisconnect (exec es) peer).1 in
  let out := (handleDisconnect (exec es) peer).2 in
  rooms s' !! k = Some (Room.mk (Room.hostId rm) (set_delete (Peer.id p) (Room.peers rm))) ∧
  ¬ memberOf s' (Peer.id p) k ∧
  (peers s' !! Room.hostId rm = None → out = []) ∧
  (∀ hostPeer h, peers s' !! Room.hostId rm = Some hostPeer →
     objects (exec es) !! hostPeer = Some h →
     out = if decide (Peer.socket h = OPEN)
           then [(hostPeer, PeerLeft (Peer.id p))] else []).
Proof.
  intros Hp (p' & Hp' & Hhost & Hk & _) Hrm. simplify_eq.
  unfold handleDisconnect. rewrite Hp, (truthy_roomKey es peer p k), Hrm, Hhost by done.
  simpl. rewrite lookup_insert_eq. split_and!; [done| | |].
  - intros (rm' & Hrm' & Hin). simpl in Hrm'. rewrite lookup_insert_eq in Hrm'.
    simplify_eq/=.
    apply elem_of_set_delete in Hin as [? _]. done.
  - by intros ->.
  - intros hostPeer h -> Hh. unfold send. by rewrite Hh.
Qed.

Lemma client_disconnect_witness :
  (handleDisconnect (exec hostAndClient) 1).2 = [(0, PeerLeft "0000000b")].
Proof.
  pose proof (client_disconnect hostAndClient 1 "game#default#boss"
                (Peer.mk OPEN "0000000b" true (Some "game#default#boss") false)
                (Room.mk "0000000a" ["0000000b"])) as H.
  destruct H as (_ & _ & _ & H).
  - reflexivity.
  - eexists. split_and!; [reflexivity..|]. by eexists.
  - reflexivity.
  - apply (H 0 (Peer.mk OPEN "0000000a" true (Some "game#default#boss") true));
      reflexivity.
Defined.

(** C8 (as stated) fails: the host is still in the registry, but its
    socket is CLOSING, and the client's disconnect delivers no
    [peer-left]. *)
Lemma client_disconnect_host_closing :
  let s := exec (hostAndClient ++ [SocketState 0 CLOSING]) in
  clientOf s 1 "game#default#boss" ∧
  peers (handleDisconnect s 1).1 !! "0000000a" = Some 0 ∧
  ¬ ∃ m, (0, m) ∈ (handleDisconnect s 1).2.
Proof.
  split_and!.
  - eexists. split_and!; [reflexivity..|]. by eexists.
  - reflexivity.
  - intros [m Hm]. vm_compute in Hm. by apply elem_of_nil in Hm.
Qed.

(** ** Disconnect of a host *)

Lemma framesTo_app c out1 out2 : framesTo c (out1 ++ out2) = framesTo c out1 ++ framesTo c out2.
Proof. apply filter_app. Qed.

Lemma framesTo_all c out : (∀ e, e ∈ out → e.1 = c) → framesTo c out = out.
Proof.
  induction out as [|e out IH]; intros Hall; [done|].
  unfold framesTo in *. rewrite filter_cons, decide_True by (apply Hall; left).
  f_equal. apply IH. intros e' He'. apply Hall. by right.
Qed.

Lemma framesTo_none c out : (∀ e, e ∈ out → e.1 ≠ c) → framesTo c out = [].
Proof.
  induction out as [|e out IH]; intros Hall; [done|].
  unfold framesTo in *. rewrite filter_cons, decide_False by (apply Hall; left).
  apply IH. intros e' He'. apply Hall. by right.
Qed.

Lemma framesTo_bind (f : ref → list Tx) (l : list ref) c :
  (∀ r e, e ∈ f r → e.1 = r) → NoDup l → c ∈ l → framesTo c (l ≫= f) = f c.
Proof.
  intros Hf. induction 1 as [|x l Hx Hl IH]; [by intros ?%elem_of_nil|].
  intros Hc. rewrite bind_cons, framesTo_app.
  destruct (decide (x = c)) as [->|Hne].
  - rewrite framesTo_all by (intros e; apply Hf).
    rewrite framesTo_none; [by rewrite app_nil_r|].
    intros e (r & He & Hr)%list_elem_of_bind. apply Hf in He. congruence.
  - apply elem_of_cons in Hc as [?|Hc]; [done|].
    rewrite framesTo_none; [by apply IH|].
    intros e He%Hf. congruence.
Qed.

Lemma NoDup_notified (reg : gmap string ref) clients :
  (∀ m1 m2 c, reg !! m1 = Some c → reg !! m2 = Some c → m1 = m2) →
  NoDup clients → NoDup (notified reg clients).
Proof.
  intros Hinj. induction 1 as [|cid rest Hcid Hrest IH]; [apply NoDup_nil_2|].
  rewrite notified_cons. destruct (reg !! cid) as [c|] eqn:Hc; [|done].
  apply NoDup_cons. split; [|done].
  intros (m & Hm & Hmc)%elem_of_notified.
  by rewrite (Hinj cid m c) in Hcid.
Qed.

Lemma registry_inj s i j r :
  wf s → peers s !! i = Some r → peers s !! j = Some r → i = j.
Proof.
  intros Hwf (p & Hp & <-)%(wf_registry _ Hwf) (q & Hq & <-)%(wf_registry _ Hwf).
  congruence.
Qed.

(** C2 (as amended): when a peer that is the host of an existing room
    disconnects, the room entry is deleted; every member of the room that is
    still in the registry is written exactly one frame, [host-disconnected],
    when its socket is OPEN, and no frame when it is not; and afterwards the
    [roomKey] of every such member is [null]. *)
Theorem host_disconnect es peer k rm :
  hostOf (exec es) peer k →
  rooms (exec es) !! k = Some rm →
  let s' := (handleDisconnect (exec es) peer).1 in
  let out := (handleDisconnect (exec es) peer).2 in
  rooms s' !! k = None ∧
  ∀ m c q, m ∈ Room.peers rm → peers s' !! m = Some c →
    objects (exec es) !! c = Some q →
    framesTo c out =
      (if decide (Peer.socket q = OPEN)
       then [(c, HostDisconnected "O Host encerrou a sessão.")] else []) ∧
    ∃ q', objects s' !! c = Some q' ∧ Peer.roomKey q' = None.
Proof.
  intros (p & Hp & Hhost & Hk & _) Hrm. pose proof (wf_exec es) as Hwf.
  unfold handleDisconnect. rewrite Hp, (truthy_roomKey es peer p k), Hrm, Hhost by done.
  set (reg := delete (Peer.id p) (peers (exec es))).
  pose proof (notifyClients_out reg (objects (exec es)) (Room.peers rm)) as Hout.
  pose proof (notifyClients_objects_in reg (objects (exec es)) (Room.peers rm)) as Hin.
  destruct (notifyClients _ _ _) as [objs out]. simpl in *.
  split; [apply lookup_delete_eq|].
  intros m c q Hm Hc Hq.
  assert (c ∈ notified reg (Room.peers rm)) as Hcn by (apply elem_of_notified; eauto).
  split.
  - rewrite Hout, framesTo_bind; [unfold send; by rewrite Hq| |
      |done].
    + by intros r e [-> _]%elem_of_send.
    + apply NoDup_notified; [|by eapply wf_members].
      intros m1 m2 c' [_ H1]%lookup_delete_Some [_ H2]%lookup_delete_Some.
      by eapply registry_inj.
  - rewrite (Hin c Hcn), Hq. by eexists.
Qed.

Lemma host_disconnect_witness :
  framesTo 1 (handleDisconnect (exec hostAndClient) 0).2 =
    [(1, HostDisconnected "O Host encerrou a sessão.")].
Proof.
  pose proof (host_disconnect hostAndClient 0 "game#default#boss"
                (Room.mk "0000000a" ["0000000b"])) as H.
  destruct H as [_ H].
  - eexists. split_and!; [reflexivity..|]. by eexists.
  - reflexivity.
  - apply (H "0000000b" 1 (Peer.mk OPEN "0000000b" true (Some "game#default#boss") false)).
    + by left.
    + reflexivity.
    + reflexivity.
Defined.

(** C2 (as stated) fails: B is a member of A's room and is still in the
    registry, its socket is CLOSING, and A's disconnect writes no
    [host-disconnected] frame to it. *)
Lemma host_disconnect_member_closing :
  let s := exec (hostAndClient ++ [SocketState 1 CLOSING]) in
  hostOf s 0 "game#default#boss" ∧
  memberOf s "0000000b" "game#default#boss" ∧
  peers (handleDisconnect s 0).1 !! "0000000b" = Some 1 ∧
  ¬ ∃ m, (1, m) ∈ (handleDisconnect s 0).2.
Proof.
  split_and!.
  - eexists. split_and!; [reflexivity..|]. by eexists.
  - eexists. split; [reflexivity|]. by left.
  - reflexivity.
  - intros [m Hm]. vm_compute in Hm. by apply elem_of_nil in Hm.
Qed.

(** ** Running the disconnect path twice *)

Lemma host_not_notified s peer p clients :
  wf s → objects s !! peer = Some p →
  peer ∉ notified (delete (Peer.id p) (peers s)) clients.
Proof.
  intros Hwf Hp (m & _ & [Hne Hm]%lookup_delete_Some)%elem_of_notified.
  apply (wf_registry _ Hwf) in Hm as (q & Hq & Hid). congruence.
Qed.

Lemma set_delete_notin x l : x ∉ l → set_delete x l = l.
Proof.
  intros Hx. unfold set_delete. induction l as [|y l IH]; [done|].
  apply not_elem_of_cons in Hx as [Hne Hx].
  rewrite filter_cons, decide_True by done. f_equal. by apply IH.
Qed.

Lemma truthy_None (o : option string) :
  (if truthy o then o else None) = None → o = None ∨ o = Some "".
Proof.
  destruct o as [k|]; simpl; [|by left]. case_bool_decide as Hk; [done|].
  intros _. right. f_equal. by destruct (decide (k = "")).
Qed.

(** The first run establishes [departed]. *)
Lemma departed_first s peer p :
  wf s → objects s !! peer = Some p → departed s peer p (handleDisconnect s peer).1.
Proof.
  intros Hwf Hp. pose proof (wf_roomKey _ Hwf _ _ Hp) as Hne.
  unfold departed, handleDisconnect. rewrite Hp.
  destruct (if truthy (Peer.roomKey p) then Peer.roomKey p else None) as [k|] eqn:Hk.
  2:{ simpl. split_and!; [by rewrite lookup_delete_eq|by exists p|by eauto|].
      intros k rm Hrk _. apply truthy_None in Hk as [Hk|Hk]; congruence. }
  assert (Peer.roomKey p = Some k) as Hrk.
  { destruct (Peer.roomKey p); simpl in Hk; [|done]. by case_bool_decide. }
  destruct (rooms s !! k) as [rm|] eqn:Hrm.
  2:{ simpl. split_and!; [by rewrite lookup_delete_eq|by exists p|by eauto|].
      intros k' rm' Hrk' Hrm'. congruence. }
  destruct (Peer.isHost p) eqn:Hhost.
  - pose proof (notifyClients_objects_notin (delete (Peer.id p) (peers s)) (objects s)
                  (Room.peers rm) peer (host_not_notified s peer p _ Hwf Hp)) as Hsame.
    destruct (notifyClients _ _ _) as [objs out]. simpl in *.
    split_and!; [by rewrite lookup_delete_eq|exists p; by rewrite Hsame| |].
    + intros k' rm' [_ Hrm']%lookup_delete_Some. eauto.
    + intros k' rm' Hrk'. simplify_eq. by rewrite lookup_delete_eq.
  - simpl. split_and!; [by rewrite lookup_delete_eq|by exists p| |].
    + intros k' rm' [[<- <-]|[_ Hrm']]%lookup_insert_Some; simpl; eauto.
    + intros k' rm' Hrk'. simplify_eq. rewrite lookup_insert_eq. intros [= <-].
      split; [done|]. simpl. rewrite elem_of_set_delete. tauto.
Qed.

Lemma departed_not_notified s0 peer p s x clients :
  wf s → departed s0 peer p s → peer ∉ notified (delete x (peers s)) clients.
Proof.
  intros Hwf (Hreg & (q & Hq & Hid & _) & _)
         (m & _ & [Hne Hm]%lookup_delete_Some)%elem_of_notified.
  destruct (wf_registry _ Hwf _ _ Hm) as (q' & Hq' & Hid'). simplify_eq. congruence.
Qed.

(** [departed] is kept by the disconnect of any peer ... *)
Lemma departed_close s0 peer p s r :
  wf s → departed s0 peer p s → departed s0 peer p (handleDisconnect s r).1.
Proof.
  intros Hwf Hdep. pose proof Hdep as (Hreg & (q & Hq & Hfields) & Hshrink & Hroom).
  unfold departed, handleDisconnect. destruct (objects s !! r) as [q'|] eqn:Hq'; [|done].
  assert (delete (Peer.id q') (peers s) !! Peer.id p = None) as Hreg'.
  { apply lookup_delete_None. by right. }
  destruct (if truthy (Peer.roomKey q') then Peer.roomKey q' else None) as [k|];
    [|split_and!; simpl; eauto].
  destruct (rooms s !! k) as [rm|] eqn:Hrm; [|split_and!; simpl; eauto].
  destruct (Peer.isHost q').
  - pose proof (notifyClients_objects_notin (delete (Peer.id q') (peers s)) (objects s)
                  (Room.peers rm) peer
                  (departed_not_notified s0 peer p s _ _ Hwf Hdep)) as Hsame.
    destruct (notifyClients _ _ _) as [objs out]. simpl in *.
    split_and!; [done|exists q; by rewrite Hsame| |].
    + intros k' rm' [_ Hrm']%lookup_delete_Some. eauto.
    + intros k' rm' Hrk' [_ Hrm']%lookup_delete_Some. eauto.
  - simpl. split_and!; [done|by exists q| |].
    + intros k' rm' [[<- <-]|[_ Hrm']]%lookup_insert_Some; simpl; eauto.
    + intros k' rm' Hrk' [[<- <-]|[_ Hrm']]%lookup_insert_Some; [|eauto].
      destruct (Hroom k rm Hrk' Hrm) as [Hhost Hnin]. split; [done|].
      simpl. rewrite elem_of_set_delete. tauto.
Qed.

(** ... and by every other event that is no connection and no
    [join-room]. *)
Lemma departed_step s0 peer p s e :
  wf s → quiet e → departed s0 peer p s → departed s0 peer p (step s e).1.
Proof.
  intros Hwf Hquiet Hdep.
  assert (∀ f, (∀ x, Peer.id (f x) = Peer.id x) →
               (∀ x, Peer.roomKey (f x) = Peer.roomKey x) →
               (∀ x, Peer.isHost (f x) = Peer.isHost x) →
               ∀ r, departed s0 peer p
                      (mkServer (alter f r (objects s)) (peers s) (rooms s))) as Halter.
  { intros f Hid Hrk Hhost r. destruct Hdep as (Hreg & (q & Hq & Hi & Hk & Hh) & Hrest).
    split_and!; [done| |apply Hrest..]. simpl. rewrite list_lookup_alter.
    case_decide; [subst; rewrite Hq; exists (f q)|exists q]; simpl;
      by rewrite ?Hid, ?Hrk, ?Hhost. }
  destruct e as [?|sender data|r|r|r|r st]; simpl in *; [done| | |by apply Halter..].
  - destruct data as [?|target payload|target payload| |]; simpl; try done.
    + unfold routeSignal. destruct (objects s !! sender); [|done]. by destruct (_ ≫= _).
    + unfold routeData. destruct (objects s !! sender); [|done]. by destruct (_ ≫= _).
  - by apply departed_close.
Qed.

Lemma departed_run s0 peer p mid : ∀ s,
  wf s → Forall quiet mid → departed s0 peer p s → departed s0 peer p (run s mid).1.
Proof.
  induction mid as [|e mid IH]; intros s Hwf Hquiet Hdep; [done|].
  apply Forall_cons in Hquiet as [He Hmid]. simpl.
  pose proof (wf_step s e Hwf) as Hwf1. pose proof (departed_step _ _ _ s e Hwf He Hdep) as H1.
  destruct (step s e) as [s1 o1]. simpl in *.
  specialize (IH s1 Hwf1 Hmid H1). by destruct (run s1 mid).
Qed.

(** A peer object that does not exist is not created by such events. *)
Lemma absent_step s e peer :
  quiet e → objects s !! peer = None → objects (step s e).1 !! peer = None.
Proof.
  intros Hquiet Hnone.
  destruct e as [?|sender data|r|r|r|r st]; simpl in *; [done| | | | |].
  - destruct data as [?|target payload|target payload| |]; simpl; try done.
    + unfold routeSignal. destruct (objects s !! sender); [|done]. by destruct (_ ≫= _).
    + unfold routeData. destruct (objects s !! sender); [|done]. by destruct (_ ≫= _).
  - unfold handleDisconnect. destruct (objects s !! r) as [q|]; [|done].
    destruct (if truthy _ then _ else _) as [k|]; [|done].
    destruct (rooms s !! k) as [rm|]; [|done].
    destruct (Peer.isHost q); [|done].
    pose proof (notifyClients_objects_in (delete (Peer.id q) (peers s)) (objects s)
                  (Room.peers rm) peer) as Hin.
    pose proof (notifyClients_objects_notin (delete (Peer.id q) (peers s)) (objects s)
                  (Room.peers rm) peer) as Hnin.
    destruct (notifyClients _ _ _) as [objs out]. simpl in *.
    destruct (decide (peer ∈ notified (delete (Peer.id q) (peers s)) (Room.peers rm)))
      as [Hd|Hd]; [rewrite Hin|rewrite Hnin]; by rewrite ?Hnone.
  - destruct (decide (r = peer)) as [->|Hne];
      [by rewrite list_lookup_alter_eq, Hnone|by rewrite list_lookup_alter_ne].
  - destruct (decide (r = peer)) as [->|Hne];
      [by rewrite list_lookup_alter_eq, Hnone|by rewrite list_lookup_alter_ne].
  - destruct (decide (r = peer)) as [->|Hne];
      [by rewrite list_lookup_alter_eq, Hnone|by rewrite list_lookup_alter_ne].
Qed.

Lemma absent_run peer mid : ∀ s,
  Forall quiet mid → objects s !! peer = None → objects (run s mid).1 !! peer = None.
Proof.
  induction mid as [|e mid IH]; intros s Hquiet Hnone; [done|].
  apply Forall_cons in Hquiet as [He Hmid]. simpl.
  pose proof (absent_step s e peer He Hnone) as H1.
  destruct (step s e) as [s1 o1]. simpl in *.
  specialize (IH s1 Hmid H1). by destruct (run s1 mid).
Qed.

(** The run of [handleDisconnect] for a departed peer. *)
Lemma departed_again s0 peer p s :
  wf s → departed s0 peer p s →
  handleDisconnect s peer =
    (s, match Peer.roomKey p ≫= (λ k, rooms s !! k) with
        | Some rm =>
            match peers s !! Room.hostId rm with
            | Some hostPeer => send (objects s) hostPeer (PeerLeft (Peer.id p))
            | None => []
            end
        | None => []
        end).
Proof.
  intros Hwf (Hreg & (q & Hq & Hid & Hrk & Hhost) & _ & Hroom).
  pose proof (wf_roomKey _ Hwf _ _ Hq) as Hne.
  unfold handleDisconnect. rewrite Hq, Hid, Hrk, Hhost, (delete_id _ _ Hreg).
  destruct s as [objs reg rms]. simpl in *.
  destruct (Peer.roomKey p) as [k|] eqn:Hk; simpl; [|done].
  rewrite bool_decide_eq_true_2 by congruence.
  destruct (rms !! k) as [rm|] eqn:Hrm; [|done].
  destruct (Hroom k rm eq_refl Hrm) as [-> Hnin].
  rewrite set_delete_notin by done.
  replace (Room.mk (Room.hostId rm) (Room.peers rm)) with rm by by destruct rm.
  by rewrite insert_id.
Qed.

(** C5 (as amended): the disconnect path is run for a peer, then events
    none of which is a connection or a [join-room] request are handled
    (there may be none), and the disconnect path is run for the same peer
    again.  The second run changes nothing in the registry, the rooms and
    the peer objects.  It writes no frame unless the peer was a client of
    an existing room at the first run.  For such a client it writes nothing
    when the room is gone by the second run; when the room is still there
    (with the host identity it had), the output is exactly one [peer-left]
    with the identity of the peer, written to the peer registered under
    the room's host identity, if there is one and its socket is OPEN, and
    nothing otherwise. *)
Theorem disconnect_twice es peer mid :
  Forall quiet mid →
  let s := exec es in
  let s1 := (run (handleDisconnect s peer).1 mid).1 in
  let s2 := (handleDisconnect s1 peer).1 in
  let out2 := (handleDisconnect s1 peer).2 in
  s2 = s1 ∧
  ((∀ k, ¬ clientOf s peer k) → out2 = []) ∧
  (∀ p k, objects s !! peer = Some p → clientOf s peer k →
     (rooms s1 !! k = None → out2 = []) ∧
     (∀ rm1, rooms s1 !! k = Some rm1 →
        (∃ rm, rooms s !! k = Some rm ∧ Room.hostId rm1 = Room.hostId rm) ∧
        (peers s1 !! Room.hostId rm1 = None → out2 = []) ∧
        (∀ hostPeer h, peers s1 !! Room.hostId rm1 = Some hostPeer →
           objects s1 !! hostPeer = Some h →
           out2 = if decide (Peer.socket h = OPEN)
                  then [(hostPeer, PeerLeft (Peer.id p))] else []))).
Proof.
  intros Hquiet s s1 s2 out2. pose proof (wf_exec es) as Hwf. fold s in Hwf.
  pose proof (wf_handleDisconnect s peer Hwf) as Hwf0.
  pose proof (wf_run _ mid Hwf0) as Hwf1. fold s1 in Hwf1.
  destruct (objects s !! peer) as [p|] eqn:Hp.
  2:{ assert (objects s1 !! peer = None) as Hnone.
      { apply absent_run; [done|]. unfold handleDisconnect. by rewrite Hp. }
      subst s2 out2. unfold handleDisconnect. rewrite Hnone. split_and!; [done..|].
      intros p k [=]. }
  pose proof (departed_run s peer p mid _ Hwf0 Hquiet (departed_first s peer p Hwf Hp)) as Hdep.
  fold s1 in Hdep. subst s2 out2. rewrite (departed_again s peer p s1 Hwf1 Hdep).
  destruct Hdep as (_ & _ & Hshrink & Hroom). cbn [fst snd]. split_and!; [done| |].
  - intros Hnot. destruct (Peer.roomKey p) as [k|] eqn:Hk; [|done]. simpl.
    destruct (rooms s1 !! k) as [rm1|] eqn:Hrm1; [|done].
    destruct (Hroom k rm1 eq_refl Hrm1) as [Hhost _].
    destruct (Hshrink k rm1 Hrm1) as (rm & Hrm & _).
    destruct (Hnot k). exists p. split_and!; [done..|]. by rewrite Hrm.
  - intros p0 k [= <-] (p' & Hp' & Hhost & Hk & _). simplify_eq. rewrite Hk. simpl. split.
    + by intros ->.
    + intros rm1 Hrm1. rewrite Hrm1. split_and!.
      * by apply Hshrink.
      * by intros ->.
      * intros hostPeer h -> Hh. unfold send. by rewrite Hh.
Qed.

Lemma disconnect_twice_witness :
  let s1 := (run (handleDisconnect (exec hostAndClient) 1).1 [Pong 0]).1 in
  (handleDisconnect s1 1).1 = s1 ∧ (handleDisconnect s1 1).2 = [(0, PeerLeft "0000000b")].
Proof.
  destruct (disconnect_twice hostAndClient 1 [Pong 0]) as (H1 & _ & H3).
  { by apply (bool_decide_unpack _). }
  split; [exact H1|].
  destruct (H3 (Peer.mk OPEN "0000000b" true (Some "game#default#boss") false)
               "game#default#boss") as [_ H4]; [reflexivity| |].
  { eexists. split_and!; [reflexivity..|]. by eexists. }
  destruct (H4 (Room.mk "0000000a" [])) as (_ & _ & H5); [reflexivity|].
  apply (H5 0 (Peer.mk OPEN "0000000a" true (Some "game#default#boss") true)); reflexivity.
Defined.

(** C5 (as stated) fails: B is a client of A's room; B's disconnect is
    handled twice, and the second run writes [peer-left] to A again. *)
Lemma disconnect_twice_peer_left_again :
  let s1 := (handleDisconnect (exec hostAndClient) 1).1 in
  (handleDisconnect s1 1).2 = [(0, PeerLeft "0000000b")].
Proof. reflexivity. Qed.

(** After a [join-room] has created the room again, a second run for the
    old host is not harmless: A's peer object still holds the room key and
    [isHost], so the run deletes the room that B now hosts and tells C that
    the host left. *)
Lemma disconnect_again_after_recreation :
  let s := exec roomRecreated in
  rooms s !! "game#default#boss" = Some (Room.mk "0000000b" ["0000000c"]) ∧
  rooms (handleDisconnect s 0).1 !! "game#default#boss" = None ∧
  (handleDisconnect s 0).2 = [(2, HostDisconnected "O Host encerrou a sessão.")].
Proof. by split_and!. Qed.

(** ** Host election *)

Lemma insert_same_socket (objs : list Peer.t) (peer : ref) p p' :
  objs !! peer = Some p → Peer.socket p' = Peer.socket p →
  Peer.socket <$> <[peer := p']> objs = Peer.socket <$> objs.
Proof.
  intros Hp Hs. rewrite list_fmap_insert, Hs. apply list_insert_id.
  by rewrite list_lookup_fmap, Hp.
Qed.

Lemma handleJoinRoom_sockets s peer payload :
  Peer.socket <$> objects (handleJoinRoom s peer payload).1 = Peer.socket <$> objects s.
Proof.
  unfold handleJoinRoom. destruct (objects s !! peer) as [p|] eqn:Hp; [|done].
  destruct payload as [pl|]; [|done].
  destruct (truthy (project pl) && truthy (room pl)); [|done].
  destruct (rooms s !! roomKeyOf pl); simpl; by eapply insert_same_socket.
Qed.

Lemma socket_lookup (objs objs' : list Peer.t) r p :
  Peer.socket <$> objs' = Peer.socket <$> objs → objs !! r = Some p →
  ∃ p', objs' !! r = Some p' ∧ Peer.socket p' = Peer.socket p.
Proof.
  intros Heq Hp.
  assert (Peer.socket <$> objs' !! r = Some (Peer.socket p)) as Hl
    by (by rewrite <- list_lookup_fmap, Heq, list_lookup_fmap, Hp).
  destruct (objs' !! r) as [p'|]; simplify_eq/=. eauto.
Qed.

Lemma created_frame (objs : list Peer.t) r p room :
  objs !! r = Some p →
  framesOfType "room-created"
    (send objs r (RoomCreated "host" room "Você é o Host. Aguardando peers...")) =
  if decide (Peer.socket p = OPEN)
  then [(r, RoomCreated "host" room "Você é o Host. Aguardando peers...")] else [].
Proof. intros Hp. unfold send. rewrite Hp. by case_decide. Qed.

Lemma framesOfType_send_other ty (objs : list Peer.t) r m :
  msg_type m ≠ ty → framesOfType ty (send objs r m) = [].
Proof.
  intros Hne. unfold send. destruct (objs !! r); [|done]. case_decide; [|done].
  unfold framesOfType. by rewrite filter_cons, decide_False.
Qed.

Lemma framesOfType_app ty out1 out2 :
  framesOfType ty (out1 ++ out2) = framesOfType ty out1 ++ framesOfType ty out2.
Proof. apply filter_app. Qed.

(** Joins to a room that exists: the host stays, nobody is told
    [room-created], every requester with an OPEN socket is told
    [room-joined] with the host's identity. *)
Lemma joins_existing key reqs : ∀ s rm,
  rooms s !! key = Some rm →
  Forall (λ rq, is_Some (objects s !! rq.1) ∧ validJoin (Some rq.2) = true ∧
                roomKeyOf rq.2 = key) reqs →
  (∃ rm', rooms (run s (joinEvents reqs)).1 !! key = Some rm' ∧
          Room.hostId rm' = Room.hostId rm) ∧
  framesOfType "room-created" (run s (joinEvents reqs)).2 = [] ∧
  (∀ r pl p, (r, pl) ∈ reqs → objects s !! r = Some p → Peer.socket p = OPEN →
     (r, RoomJoined "client" (str (room pl)) (Room.hostId rm)) ∈ (run s (joinEvents reqs)).2).
Proof.
  induction reqs as [|[r pl] reqs IH]; intros s rm Hrm Hall.
  { simpl. split_and!; [eauto|done|]. by intros ??? ?%elem_of_nil. }
  apply Forall_cons in Hall as [([p Hp] & Hvalid & Hkey) Hall]. simpl in *.
  pose proof (handleJoinRoom_sockets s r (Some pl)) as Hsock.
  unfold handleJoinRoom in *. rewrite Hp, Hvalid, Hkey, Hrm in *.
  set (s1 := mkServer _ _ _) in *. simpl in Hsock.
  destruct (IH s1 (Room.mk (Room.hostId rm) (set_add (Peer.id p) (Room.peers rm))))
    as ((rm' & Hrm' & Hhost) & Hnone & Hjoined).
  { subst s1. simpl. by rewrite lookup_insert_eq. }
  { eapply Forall_impl; [exact Hall|]. intros rq ([q Hq] & ? & ?). split_and!; [|done..].
    destruct (socket_lookup _ _ _ _ Hsock Hq) as (q' & Hq' & _). by exists q'. }
  destruct (run s1 (joinEvents reqs)) as [s2 out2]. simpl in *.
  split_and!; [eauto| |].
  - rewrite !framesOfType_app, Hnone, framesOfType_send_other by done.
    destruct (peers s !! Room.hostId rm); [|done].
    by rewrite framesOfType_send_other.
  - intros r' pl' p' [Heq|Hin]%elem_of_cons Hp' Hopen.
    + simplify_eq. apply elem_of_app. left. apply elem_of_app. left.
      destruct (socket_lookup _ _ _ _ Hsock Hp) as (q' & Hq' & Hs).
      rewrite (send_open _ _ q') by congruence. by left.
    + apply elem_of_app. right.
      destruct (socket_lookup _ _ _ _ Hsock Hp') as (q' & Hq' & Hs).
      apply (Hjoined r' pl' q'); [done..|congruence].
Qed.

(** C1 (as amended): in a run of valid [join-room] requests that all
    compute the same room key, starting when no room is stored under that
    key, the first requester becomes the [hostId] of the room; the only
    [room-created] frame of the run is the one for the first requester
    (role host), written when the socket of that requester is OPEN (none is
    written otherwise); and every later requester whose socket is OPEN is
    written [room-joined] with role client and the identity of that host. *)
Theorem first_join_hosts s key r0 p0 pl0 reqs :
  rooms s !! key = None →
  objects s !! r0 = Some p0 →
  validJoin (Some pl0) = true → roomKeyOf pl0 = key →
  Forall (λ rq, is_Some (objects s !! rq.1) ∧ validJoin (Some rq.2) = true ∧
                roomKeyOf rq.2 = key) reqs →
  let s' := (run s (joinEvents ((r0, pl0) :: reqs))).1 in
  let out := (run s (joinEvents ((r0, pl0) :: reqs))).2 in
  (∃ rm, rooms s' !! key = Some rm ∧ Room.hostId rm = Peer.id p0) ∧
  framesOfType "room-created" out =
    (if decide (Peer.socket p0 = OPEN)
     then [(r0, RoomCreated "host" (str (room pl0)) "Você é o Host. Aguardando peers...")]
     else []) ∧
  (∀ r pl p, (r, pl) ∈ reqs → objects s !! r = Some p → Peer.socket p = OPEN →
     (r, RoomJoined "client" (str (room pl)) (Peer.id p0)) ∈ out).
Proof.
  intros Hnone Hp0 Hvalid Hkey Hall. simpl in *.
  pose proof (handleJoinRoom_sockets s r0 (Some pl0)) as Hsock.
  unfold handleJoinRoom in *. rewrite Hp0, Hvalid, Hkey, Hnone in *.
  set (s1 := mkServer _ _ _) in *. simpl in Hsock.
  destruct (joins_existing key reqs s1 (Room.mk (Peer.id p0) []))
    as ((rm' & Hrm' & Hhost) & Hcreated & Hjoined).
  { subst s1. simpl. by rewrite lookup_insert_eq. }
  { eapply Forall_impl; [exact Hall|]. intros rq ([q Hq] & ? & ?). split_and!; [|done..].
    destruct (socket_lookup _ _ _ _ Hsock Hq) as (q' & Hq' & _). by exists q'. }
  destruct (run s1 (joinEvents reqs)) as [s2 out2]. simpl in *.
  split_and!; [eauto| |].
  - rewrite framesOfType_app, Hcreated, app_nil_r.
    destruct (socket_lookup _ _ _ _ Hsock Hp0) as (q' & Hq' & Hs).
    rewrite (created_frame _ _ q') by done. by rewrite Hs.
  - intros r pl p Hin Hp Hopen. apply elem_of_app. right.
    destruct (socket_lookup _ _ _ _ Hsock Hp) as (q' & Hq' & Hs).
    apply (Hjoined r pl q'); [done..|congruence].
Qed.

Lemma first_join_hosts_witness :
  let out := (run (exec [Connection OPEN bytesA; Connection OPEN bytesB])
                (joinEvents [(0, gameBoss); (1, gameBoss)])).2 in
  framesOfType "room-created" out =
    [(0, RoomCreated "host" "boss" "Você é o Host. Aguardando peers...")] ∧
  (1, RoomJoined "client" "boss" "0000000a") ∈ out.
Proof.
  destruct (first_join_hosts (exec [Connection OPEN bytesA; Connection OPEN bytesB])
              "game#default#boss" 0 (Peer.mk OPEN "0000000a" true None false)
              gameBoss [(1, gameBoss)]) as (_ & Hcreated & Hjoined).
  - reflexivity.
  - reflexivity.
  - reflexivity.
  - reflexivity.
  - repeat constructor. by eexists.
  - split; [exact Hcreated|].
    apply (Hjoined 1 gameBoss (Peer.mk OPEN "0000000b" true None false));
      [by left|reflexivity..].
Defined.

(** C1 (as stated) fails: the first requester's socket is CLOSING; its
    join creates the room and makes it the host, and no requester is
    written a [room-created] frame. *)
Lemma first_join_closing_socket :
  let s := exec closingPeer in
  let s' := (run s (joinEvents [(0, gameBoss)])).1 in
  let out := (run s (joinEvents [(0, gameBoss)])).2 in
  rooms s !! "game#default#boss" = None ∧
  Room.hostId <$> rooms s' !! "game#default#boss" = Some "0000000a" ∧
  ¬ ∃ e, e ∈ out ∧ msg_type e.2 = "room-created".
Proof.
  split_and!; [reflexivity..|].
  intros (e & He & _). vm_compute in He. by apply elem_of_nil in He.
Qed.

(** ** Routing to a target that is not registered *)

Lemma routeSignal_unknown_target s sender p target payload :
  objects s !! sender = Some p →
  target ≫= (λ targetId, peers s !! targetId) = None →
  routeSignal s sender target payload =
    (s, if decide (Peer.socket p = OPEN)
        then [(sender, Error 404 "Peer alvo desconectado.")] else []).
Proof.
  intros Hp Ht. unfold routeSignal, sendError, send. by rewrite Hp, Ht.
Qed.

Lemma routeData_unknown_target s sender target payload :
  target ≫= (λ targetId, peers s !! targetId) = None →
  routeData s sender target payload = (s, []).
Proof. intros Ht. unfold routeData. rewrite Ht. by destruct (objects s !! sender). Qed.

(** C3: a [data] message whose target is not registered is answered with
    nothing - no [error] frame with code 404 reaches the sender - while the
    same message sent as [signal] is answered with that frame. *)
Theorem data_unknown_target_silent :
  let s := exec [Connection OPEN bytesA] in
  peers s !! "ffffffff" = None ∧
  handleMessage s 0 (Data (Some "ffffffff") (Some (JStr "hello"))) = (s, []) ∧
  handleMessage s 0 (Signal (Some "ffffffff") (Some (JStr "hello"))) =
    (s, [(0, Error 404 "Peer alvo desconectado.")]).
Proof. by split_and!. Qed.

(** ** Room keys *)

Lemma append_sep_inj s1 s2 t1 t2 :
  (∀ i, String.get i s1 ≠ Some "#"%char) → (∀ i, String.get i s2 ≠ Some "#"%char) →
  s1 +:+ "#" +:+ t1 = s2 +:+ "#" +:+ t2 → s1 = s2 ∧ t1 = t2.
Proof.
  revert s2. induction s1 as [|a s1 IH]; intros [|b s2] H1 H2 Heq; simpl in *.
  - by simplify_eq.
  - simplify_eq. by destruct (H2 0%nat).
  - simplify_eq. by destruct (H1 0%nat).
  - simplify_eq. destruct (IH s2) as [-> ->]; [| |done..].
    + intros i. apply (H1 (S i)).
    + intros i. apply (H2 (S i)).
Qed.

(** Keys are distinct for distinct tenants as long as neither the project
    nor the instance contains the separator. *)
Lemma roomKeyOf_inj p1 i1 r1 p2 i2 r2 :
  (∀ i, String.get i p1 ≠ Some "#"%char) → (∀ i, String.get i p2 ≠ Some "#"%char) →
  (∀ i, String.get i (orDefault i1 "default") ≠ Some "#"%char) →
  (∀ i, String.get i (orDefault i2 "default") ≠ Some "#"%char) →
  roomKeyOf (mkJoin (Some p1) i1 (Some r1)) = roomKeyOf (mkJoin (Some p2) i2 (Some r2)) →
  p1 = p2 ∧ orDefault i1 "default" = orDefault i2 "default" ∧ r1 = r2.
Proof.
  intros Hp1 Hp2 Hi1 Hi2 Heq. unfold roomKeyOf in Heq. simpl in Heq.
  apply append_sep_inj in Heq as [-> Heq]; [|done..].
  apply append_sep_inj in Heq as [-> ->]; done.
Qed.

(** C4: two tenants that differ in the project and in the instance
    compute the same room key, and the second one joins the room of the
    first as its client. *)
Theorem roomKey_collision :
  project tenantAB ≠ project tenantA ∧
  instance tenantAB ≠ instance tenantA ∧
  validJoin (Some tenantAB) = true ∧ validJoin (Some tenantA) = true ∧
  roomKeyOf tenantAB = "a#b#c#d" ∧ roomKeyOf tenantA = "a#b#c#d" ∧
  (run init [Connection OPEN bytesA; Connection OPEN bytesB;
             Message 0 (JoinRoom (Some tenantAB));
             Message 1 (JoinRoom (Some tenantA))]).2 =
    [(0, Welcome "0000000a" "Conectado ao Pearl-2P. Aguardando dados da sala (join-room).");
     (1, Welcome "0000000b" "Conectado ao Pearl-2P. Aguardando dados da sala (join-room).");
     (0, RoomCreated "host" "d" "Você é o Host. Aguardando peers...");
     (1, RoomJoined "client" "d" "0000000a");
     (0, PeerJoined "0000000b")].
Proof. by split_and!. Qed.

(** ** Identities *)

(** Registered peers carry pairwise distinct identities: the registry is
    keyed by the identity of the peer object it stores. *)
Lemma registered_ids_distinct es i j r1 r2 p1 p2 :
  peers (exec es) !! i = Some r1 → peers (exec es) !! j = Some r2 →
  objects (exec es) !! r1 = Some p1 → objects (exec es) !! r2 = Some p2 →
  r1 ≠ r2 → Peer.id p1 ≠ Peer.id p2.
Proof.
  intros Hi Hj Hp1 Hp2 Hne Heq.
  destruct (wf_registry _ (wf_exec es) _ _ Hi) as (q1 & Hq1 & Hid1).
  destruct (wf_registry _ (wf_exec es) _ _ Hj) as (q2 & Hq2 & Hid2).
  simplify_eq. congruence.
Qed.

(** An identity that is not registered displaces nobody. *)
Lemma handleConnection_fresh s socket randomBytes i r :
  peers s !! generateId randomBytes = None → peers s !! i = Some r →
  peers (handleConnection s socket randomBytes).1 !! i = Some r.
Proof. intros Hfresh Hi. simpl. rewrite lookup_insert_ne; [done|]. congruence. Qed.

(** C6: [generateId] does not look at the registry.  When the random
    bytes of a second connection equal those of a peer that is still
    registered, both peer objects carry the same identity and the second
    takes the place of the first in the registry. *)
Theorem generateId_collision :
  let s1 := exec [Connection OPEN bytesA] in
  let s2 := exec [Connection OPEN bytesA; Connection OPEN bytesA] in
  generateId bytesA = "0000000a" ∧
  peers s1 !! "0000000a" = Some 0 ∧
  peers s2 !! "0000000a" = Some 1 ∧
  Peer.id <$> objects s2 !! 0 = Some "0000000a" ∧
  Peer.id <$> objects s2 !! 1 = Some "0000000a" ∧
  ∀ i, peers s2 !! i ≠ Some 0.
Proof.
  split_and!; [reflexivity..|].
  intros i Hi.
  destruct (wf_registry _ (wf_exec [Connection OPEN bytesA; Connection OPEN bytesA]) _ _ Hi)
    as (p & Hp & Hid).
  vm_compute in Hp. by simplify_eq/=.
Qed.

(** ** Frames are written to OPEN sockets only *)

Lemma notifyClients_sockets reg objs clients :
  Peer.socket <$> (notifyClients reg objs clients).1 = Peer.socket <$> objs.
Proof.
  revert objs. induction clients as [|cid rest IH]; intros objs; [done|].
  cbn [notifyClients]. destruct (reg !! cid) as [c|]; [|apply IH].
  specialize (IH (alter resetRoomKey c objs)).
  destruct (notifyClients reg (alter resetRoomKey c objs) rest) as [objs' outs].
  simpl in *. by rewrite IH, resetRoomKey_socket.
Qed.

Lemma send_target_open (objs objs' : list Peer.t) peer data e :
  Peer.socket <$> objs' = Peer.socket <$> objs →
  e ∈ send objs peer data → ∃ p, objs' !! e.1 = Some p ∧ Peer.socket p = OPEN.
Proof.
  intros Heq [-> (p & Hp & Ho)]%elem_of_send.
  destruct (socket_lookup _ _ _ _ Heq Hp) as (p' & Hp' & Hs). exists p'. split; [done|congruence].
Qed.

Lemma handleJoinRoom_open s peer payload e :
  e ∈ (handleJoinRoom s peer payload).2 →
  ∃ p, objects (handleJoinRoom s peer payload).1 !! e.1 = Some p ∧ Peer.socket p = OPEN.
Proof.
  unfold handleJoinRoom. destruct (objects s !! peer) as [p|] eqn:Hp; [|by intros ?%elem_of_nil].
  destruct payload as [pl|]; [|by apply send_target_open].
  destruct (truthy (project pl) && truthy (room pl)); [|by apply send_target_open].
  destruct (rooms s !! roomKeyOf pl) as [rm|]; simpl.
  - intros [He|He]%elem_of_app; [by eapply send_target_open|].
    destruct (peers s !! Room.hostId rm); [by eapply send_target_open|by apply elem_of_nil in He].
  - by apply send_target_open.
Qed.

Lemma handleDisconnect_open s peer e :
  e ∈ (handleDisconnect s peer).2 →
  ∃ p, objects (handleDisconnect s peer).1 !! e.1 = Some p ∧ Peer.socket p = OPEN.
Proof.
  unfold handleDisconnect. destruct (objects s !! peer) as [p|] eqn:Hp; [|by intros ?%elem_of_nil].
  destruct (if truthy (Peer.roomKey p) then Peer.roomKey p else None) as [k|];
    [|by intros ?%elem_of_nil].
  destruct (rooms s !! k) as [rm|]; [|by intros ?%elem_of_nil].
  destruct (Peer.isHost p).
  - pose proof (notifyClients_out (delete (Peer.id p) (peers s)) (objects s) (Room.peers rm))
      as Hout.
    pose proof (notifyClients_sockets (delete (Peer.id p) (peers s)) (objects s) (Room.peers rm))
      as Hsock.
    destruct (notifyClients _ _ _) as [objs out]. simpl in *. rewrite Hout.
    intros (c & He & _)%list_elem_of_bind. by eapply send_target_open.
  - simpl. destruct (delete (Peer.id p) (peers s) !! Room.hostId rm);
      [by apply send_target_open|by intros ?%elem_of_nil].
Qed.

Lemma step_open s e f :
  f ∈ (step s e).2 → ∃ p, objects (step s e).1 !! f.1 = Some p ∧ Peer.socket p = OPEN.
Proof.
  destruct e as [socket rnd|peer [payload|target payload|target payload|ty|]|peer|peer|peer|peer st];
    simpl; try by intros ?%elem_of_nil.
  - by apply send_target_open.
  - apply handleJoinRoom_open.
  - unfold routeSignal. destruct (objects s !! peer); [|by intros ?%elem_of_nil].
    destruct (_ ≫= _); by apply send_target_open.
  - unfold routeData. destruct (objects s !! peer); [|by intros ?%elem_of_nil].
    destruct (_ ≫= _); [by apply send_target_open|by intros ?%elem_of_nil].
  - apply handleDisconnect_open.
Qed.

(** ** The state does not depend on the sockets *)

Lemma forget_lookup (objs objs' : list Peer.t) r :
  forget <$> objs = forget <$> objs' →
  match objs !! r, objs' !! r with
  | Some p, Some p' => forget p = forget p'
  | None, None => True
  | _, _ => False
  end.
Proof.
  intros Heq.
  assert (forget <$> objs !! r = forget <$> objs' !! r) as Hl
    by (by rewrite <- !list_lookup_fmap, Heq).
  destruct (objs !! r), (objs' !! r); simpl in Hl; try done; congruence.
Qed.

Lemma forget_insert (objs objs' : list Peer.t) r p p' :
  forget <$> objs = forget <$> objs' → forget p = forget p' →
  forget <$> <[r := p]> objs = forget <$> <[r := p']> objs'.
Proof. intros Heq Hp. by rewrite !list_fmap_insert, Heq, Hp. Qed.

Lemma forget_alter (objs objs' : list Peer.t) (f g : Peer.t → Peer.t) h r :
  (∀ p, forget (f p) = h (forget p)) → (∀ p, forget (g p) = h (forget p)) →
  forget <$> objs = forget <$> objs' →
  forget <$> alter f r objs = forget <$> alter g r objs'.
Proof.
  intros Hf Hg Heq.
  rewrite (list_fmap_alter forget f h), (list_fmap_alter forget g h), Heq; [done|..];
    by apply Forall_true.
Qed.

Lemma notifyClients_forget reg clients : ∀ objs objs',
  forget <$> objs = forget <$> objs' →
  forget <$> (notifyClients reg objs clients).1 = forget <$> (notifyClients reg objs' clients).1.
Proof.
  induction clients as [|cid rest IH]; intros objs objs' Heq; [done|].
  cbn [notifyClients]. destruct (reg !! cid) as [c|]; [|by apply IH].
  specialize (IH (alter resetRoomKey c objs) (alter resetRoomKey c objs')).
  destruct (notifyClients reg (alter resetRoomKey c objs) rest) as [o1 t1].
  destruct (notifyClients reg (alter resetRoomKey c objs') rest) as [o2 t2].
  simpl in *. apply IH.
  by apply (forget_alter _ _ _ _ (λ x, (x.1.1.1, x.1.1.2, None, x.2))).
Qed.

Lemma step_sameButSockets s s' e :
  sameButSockets s s' → sameButSockets (step s e).1 (step s' e).1.
Proof.
  destruct s as [objs reg rms], s' as [objs' reg' rms'].
  intros (Hobjs & Hreg & Hrms). simpl in *. subst reg' rms'.
  pose proof (λ r, forget_lookup objs objs' r Hobjs) as Hl.
  destruct e as [socket rnd|peer [payload|target payload|target payload|ty|]|peer|peer|peer|peer st];
    simpl.
  - assert (length objs = length objs') as Hlen
      by (by rewrite <- (length_fmap forget objs), Hobjs, length_fmap).
    split_and!; simpl; [|by rewrite Hlen|done]. by rewrite !fmap_app, Hobjs.
  - unfold handleJoinRoom. simpl. specialize (Hl peer).
    destruct (objs !! peer) as [p|], (objs' !! peer) as [p'|]; try done.
    destruct payload as [pl|]; [|done].
    destruct (truthy (project pl) && truthy (room pl)); [|done].
    injection Hl as Hid Halive Hrk Hhost.
    destruct (rms !! roomKeyOf pl) as [rm|]; split_and!; simpl; try done.
    + apply forget_insert; [done|]. unfold forget. simpl. congruence.
    + by rewrite Hid.
    + apply forget_insert; [done|]. unfold forget. simpl. congruence.
    + by rewrite Hid.
  - unfold routeSignal. simpl. specialize (Hl peer).
    destruct (objs !! peer), (objs' !! peer); try done. by destruct (_ ≫= _).
  - unfold routeData. simpl. specialize (Hl peer).
    destruct (objs !! peer), (objs' !! peer); try done. by destruct (_ ≫= _).
  - done.
  - done.
  - unfold handleDisconnect. simpl. specialize (Hl peer).
    destruct (objs !! peer) as [p|], (objs' !! peer) as [p'|]; try done.
    injection Hl as Hid Halive Hrk Hhost. rewrite Hid, Hrk, Hhost.
    destruct (if truthy (Peer.roomKey p') then Peer.roomKey p' else None) as [k|]; [|done].
    destruct (rms !! k) as [rm|]; [|done].
    destruct (Peer.isHost p'); [|done].
    pose proof (notifyClients_forget (delete (Peer.id p') reg) (Room.peers rm) objs objs' Hobjs).
    destruct (notifyClients _ objs _), (notifyClients _ objs' _). done.
  - split_and!; simpl; [|done..].
    by apply (forget_alter _ _ _ _ (λ x, (x.1.1.1, true, x.1.2, x.2))).
  - split_and!; simpl; [|done..].
    by apply (forget_alter _ _ _ _ (λ x, (x.1.1.1, false, x.1.2, x.2))).
  - split_and!; simpl; [|done..]. by apply (forget_alter _ _ _ _ (λ x, x)).
Qed.

(** C10: [send] writes the frame when the socket of the peer is OPEN
    and writes nothing when it is not; every frame that a handler writes
    (welcome, room-created, room-joined, peer-joined, peer-left,
    host-disconnected, signal, data, error) therefore goes to a peer whose
    socket is OPEN; and the registry, the rooms and the fields of the peer
    objects after an event are the same whatever the [readyState] of the
    sockets, so that a dropped message changes no state and is reported to
    nobody. *)
Theorem frames_only_to_open_sockets :
  (∀ (objs : list Peer.t) peer p data,
     objs !! peer = Some p → Peer.socket p = OPEN → send objs peer data = [(peer, data)]) ∧
  (∀ (objs : list Peer.t) peer p data,
     objs !! peer = Some p → Peer.socket p ≠ OPEN → send objs peer data = []) ∧
  (∀ s e f, f ∈ (step s e).2 →
     ∃ p, objects (step s e).1 !! f.1 = Some p ∧ Peer.socket p = OPEN) ∧
  (∀ s s' e, sameButSockets s s' → sameButSockets (step s e).1 (step s' e).1).
Proof.
  split_and!.
  - apply send_open.
  - apply send_not_open.
  - apply step_open.
  - apply step_sameButSockets.
Qed.

Lemma frames_only_to_open_sockets_witness :
  send (objects (exec closingPeer)) 0 (PeerJoined "0000000b") = [] ∧
  ∃ p, objects (step (exec [Connection OPEN bytesA]) (Message 0 (JoinRoom None))).1 !! 0
         = Some p ∧ Peer.socket p = OPEN.
Proof.
  destruct frames_only_to_open_sockets as (_ & Hclosed & Hopen & _). split.
  - apply (Hclosed _ 0 (Peer.mk CLOSING "0000000a" true None false)); [reflexivity|done].
  - apply (Hopen (exec [Connection OPEN bytesA]) (Message 0 (JoinRoom None))
             (0, Error 400 "Dados de projeto/sala incompletos.")).
    by left.
Defined.

(** ** Membership in at most one room *)

Lemma memberOf_handleDisconnect s peer x k :
  memberOf (handleDisconnect s peer).1 x k → memberOf s x k.
Proof.
  unfold handleDisconnect. destruct (objects s !! peer) as [p|]; [|done].
  destruct (if truthy (Peer.roomKey p) then Peer.roomKey p else None) as [k0|]; [|done].
  destruct (rooms s !! k0) as [rm|] eqn:Hrm; [|done].
  destruct (Peer.isHost p).
  - destruct (notifyClients _ _ _) as [objs out]. simpl.
    intros (rm' & Hrm' & Hx). simpl in Hrm'.
    apply lookup_delete_Some in Hrm' as [_ Hrm']. by exists rm'.
  - intros (rm' & Hrm' & Hx). simpl in Hrm'. rewrite lookup_insert in Hrm'.
    case_decide; [|by exists rm']. simplify_eq/=.
    apply elem_of_set_delete in Hx as [_ Hx]. by exists rm.
Qed.

Lemma memberOf_handleJoinRoom s peer payload x k :
  memberOf (handleJoinRoom s peer payload).1 x k →
  memberOf s x k ∨
  ∃ p pl, objects s !! peer = Some p ∧ payload = Some pl ∧ validJoin payload = true ∧
          x = Peer.id p ∧ k = roomKeyOf pl.
Proof.
  unfold handleJoinRoom. destruct (objects s !! peer) as [p|]; [|by left].
  destruct payload as [pl|]; [|by left]. simpl.
  destruct (truthy (project pl) && truthy (room pl)); [|by left].
  destruct (rooms s !! roomKeyOf pl) as [rm|] eqn:Hrm.
  - intros (rm' & Hrm' & Hx). simpl in Hrm'. rewrite lookup_insert in Hrm'.
    case_decide; [|left; by exists rm']. simplify_eq/=.
    apply elem_of_set_add in Hx as [->|Hx]; [right; by exists p, pl|left; by exists rm].
  - intros (rm' & Hrm' & Hx). simpl in Hrm'. rewrite lookup_insert in Hrm'.
    case_decide; [|left; by exists rm']. simplify_eq/=. by apply elem_of_nil in Hx.
Qed.

Lemma singleRoom_handleJoinRoom s peer payload :
  joinsFresh s (Message peer (JoinRoom payload)) →
  singleRoom s → singleRoom (handleJoinRoom s peer payload).1.
Proof.
  intros Hfresh Hs x k1 k2 H1 H2.
  apply memberOf_handleJoinRoom in H1, H2.
  assert (∀ k p pl, objects s !! peer = Some p → payload = Some pl →
            validJoin payload = true → memberOf s (Peer.id p) k → k = roomKeyOf pl) as Hold.
  { intros k p pl Hp -> Hvalid (rm & Hrm & Hin). simpl in Hfresh. rewrite Hp in Hfresh.
    by apply (Hfresh Hvalid k rm). }
  destruct H1 as [H1|(p1 & pl1 & ? & ? & ? & -> & ->)],
           H2 as [H2|(p2 & pl2 & ? & ? & ? & ? & ->)]; simplify_eq.
  - by eapply Hs.
  - by eapply Hold.
  - symmetry. by eapply Hold.
  - done.
Qed.

Lemma singleRoom_step s e : joinsFresh s e → singleRoom s → singleRoom (step s e).1.
Proof.
  intros Hfresh Hs.
  destruct e as [socket rnd|peer [payload|target payload|target payload|ty|]|peer|peer|peer|peer st];
    simpl; try done.
  - by apply singleRoom_handleJoinRoom.
  - unfold routeSignal. destruct (objects s !! peer); [|done]. by destruct (_ ≫= _).
  - unfold routeData. destruct (objects s !! peer); [|done]. by destruct (_ ≫= _).
  - intros x k1 k2 H1%memberOf_handleDisconnect H2%memberOf_handleDisconnect. by eapply Hs.
Qed.

Lemma singleRoom_run es : ∀ s, freshRun s es → singleRoom s → singleRoom (run s es).1.
Proof.
  induction es as [|e es IH]; intros s Hfresh Hs; [done|].
  destruct Hfresh as [He Hes]. simpl.
  pose proof (singleRoom_step s e He Hs) as H1. destruct (step s e) as [s1 o1].
  specialize (IH s1 Hes H1). by destruct (run s1 es).
Qed.

(** C7 (as amended): in every state reached by a history in which no
    peer sends a valid [join-room] while its identity is in the member set
    of a room other than the one it joins, each identity is in the member
    set of at most one room.  (Connections, routed messages and disconnects
    keep the property without any condition.) *)
Theorem member_of_one_room es :
  freshRun init es → singleRoom (exec es).
Proof.
  intros Hfresh. apply singleRoom_run; [done|].
  intros x k1 k2 (rm & Hrm & _). simpl in Hrm. by rewrite lookup_empty in Hrm.
Qed.

Lemma member_of_one_room_witness : singleRoom (exec hostAndClient).
Proof.
  apply member_of_one_room.
  apply (bool_decide_unpack _). vm_compute. exact I.
Defined.

(** C7 (as stated) fails: C joins the room of A and then the room of B
    and is in the member sets of both. *)
Lemma member_of_two_rooms :
  memberOf (exec twoRooms) "0000000c" "game#default#boss" ∧
  memberOf (exec twoRooms) "0000000c" "game#default#lobby" ∧
  ¬ singleRoom (exec twoRooms).
Proof.
  assert (memberOf (exec twoRooms) "0000000c" "game#default#boss") as H1.
  { eexists. split; [reflexivity|]. by left. }
  assert (memberOf (exec twoRooms) "0000000c" "game#default#lobby") as H2.
  { eexists. split; [reflexivity|]. by left. }
  split_and!; [done..|]. intros Hs. by specialize (Hs _ _ _ H1 H2).
Qed.

(** The history [twoRooms] does not meet the side condition: C's second
    join is sent while C is a member of A's room. *)
Lemma twoRooms_not_fresh : ¬ freshRun init twoRooms.
Proof. apply (bool_decide_eq_false_1 _). by vm_compute. Qed.

(** ** Further properties of the server with rooms *)

(** *** Identities and the registry *)

(** X1: in every reachable state, looking an id up in the registry gives a
    peer object that carries this id, so no peer object is registered under
    two ids. *)
Theorem registry_keys_are_ids es i r :
  peers (exec es) !! i = Some r →
  (∃ p, objects (exec es) !! r = Some p ∧ Peer.id p = i) ∧
  ∀ j, peers (exec es) !! j = Some r → j = i.
Proof.
  intros Hi. split; [by apply (wf_registry _ (wf_exec es))|].
  intros j Hj. by eapply registry_inj; [apply wf_exec|..].
Qed.

Lemma registry_keys_are_ids_witness :
  (∃ p, objects (exec hostAndClient) !! 1 = Some p ∧ Peer.id p = "0000000b") ∧
  ∀ j, peers (exec hostAndClient) !! j = Some 1 → j = "0000000b".
Proof. apply (registry_keys_are_ids hostAndClient "0000000b" 1). reflexivity. Defined.

Lemma id_fmap_insert (objs : list Peer.t) (peer : ref) p p' :
  objs !! peer = Some p → Peer.id p' = Peer.id p →
  Peer.id <$> <[peer := p']> objs = Peer.id <$> objs.
Proof.
  intros Hp Hid. rewrite list_fmap_insert, Hid. apply list_insert_id.
  by rewrite list_lookup_fmap, Hp.
Qed.

Lemma id_fmap_alter (objs : list Peer.t) (f : Peer.t → Peer.t) (peer : ref) :
  (∀ p, Peer.id (f p) = Peer.id p) → Peer.id <$> alter f peer objs = Peer.id <$> objs.
Proof.
  intros Hf. rewrite (list_fmap_alter _ _ (λ x, x)); [|by apply Forall_true].
  apply list_eq. intros i. rewrite list_lookup_alter.
  case_decide; [subst|done]. by destruct (_ !! _).
Qed.

Lemma notifyClients_ids reg objs clients :
  Peer.id <$> (notifyClients reg objs clients).1 = Peer.id <$> objs.
Proof.
  revert objs. induction clients as [|cid rest IH]; intros objs; [done|].
  cbn [notifyClients]. destruct (reg !! cid) as [c|]; [|apply IH].
  specialize (IH (alter resetRoomKey c objs)).
  destruct (notifyClients reg (alter resetRoomKey c objs) rest) as [objs' outs].
  simpl in *. by rewrite IH, id_fmap_alter.
Qed.

Lemma handleDisconnect_ids s peer :
  Peer.id <$> objects (handleDisconnect s peer).1 = Peer.id <$> objects s.
Proof.
  unfold handleDisconnect. destruct (objects s !! peer) as [p|]; [|done].
  destruct (if truthy (Peer.roomKey p) then Peer.roomKey p else None) as [k|]; [|done].
  destruct (rooms s !! k) as [rm|]; [|done].
  destruct (Peer.isHost p); [|done].
  pose proof (notifyClients_ids (delete (Peer.id p) (peers s)) (objects s) (Room.peers rm)).
  by destruct (notifyClients _ _ _).
Qed.

Lemma handleDisconnect_sockets s peer :
  Peer.socket <$> objects (handleDisconnect s peer).1 = Peer.socket <$> objects s.
Proof.
  unfold handleDisconnect. destruct (objects s !! peer) as [p|]; [|done].
  destruct (if truthy (Peer.roomKey p) then Peer.roomKey p else None) as [k|]; [|done].
  destruct (rooms s !! k) as [rm|]; [|done].
  destruct (Peer.isHost p); [|done].
  pose proof (notifyClients_sockets (delete (Peer.id p) (peers s)) (objects s) (Room.peers rm)).
  by destruct (notifyClients _ _ _).
Qed.

Lemma handleJoinRoom_ids s peer payload :
  Peer.id <$> objects (handleJoinRoom s peer payload).1 = Peer.id <$> objects s.
Proof.
  unfold handleJoinRoom. destruct (objects s !! peer) as [p|] eqn:Hp; [|done].
  destruct payload as [pl|]; [|done].
  destruct (truthy (project pl) && truthy (room pl)); [|done].
  destruct (rooms s !! roomKeyOf pl); simpl; by eapply id_fmap_insert.
Qed.

Lemma handleMessage_ids s sender data :
  Peer.id <$> objects (handleMessage s sender data).1 = Peer.id <$> objects s.
Proof.
  destruct data; simpl; try done.
  - apply handleJoinRoom_ids.
  - unfold routeSignal. destruct (objects s !! sender); [|done]. by destruct (_ ≫= _).
  - unfold routeData. destruct (objects s !! sender); [|done]. by destruct (_ ≫= _).
Qed.

Lemma step_ids s e :
  Peer.id <$> objects s `prefix_of` Peer.id <$> objects (step s e).1.
Proof.
  destruct e; simpl.
  - rewrite fmap_app. by apply prefix_app_r.
  - by rewrite handleMessage_ids.
  - by rewrite handleDisconnect_ids.
  - by rewrite id_fmap_alter.
  - by rewrite id_fmap_alter.
  - by rewrite id_fmap_alter.
Qed.

Lemma run_ids es : ∀ s, Peer.id <$> objects s `prefix_of` Peer.id <$> objects (run s es).1.
Proof.
  induction es as [|e es IH]; intros s; [done|]. simpl.
  pose proof (step_ids s e) as H1. destruct (step s e) as [s1 o1].
  specialize (IH s1). destruct (run s1 es) as [s2 o2]. simpl in *. by etrans.
Qed.

(** X2: a peer object keeps the id it was given at connection time: whatever
    events follow, the object is still in the store with the same id. *)
Theorem peer_id_is_stable s es r p :
  objects s !! r = Some p →
  ∃ p', objects (run s es).1 !! r = Some p' ∧ Peer.id p' = Peer.id p.
Proof.
  intros Hp. destruct (run_ids es s) as [k Hk].
  assert ((Peer.id <$> objects (run s es).1) !! r = Some (Peer.id p)) as Hl.
  { rewrite Hk. apply lookup_app_l_Some. by rewrite list_lookup_fmap, Hp. }
  rewrite list_lookup_fmap in Hl.
  destruct (objects (run s es).1 !! r) as [p'|]; simplify_eq/=. eauto.
Qed.

Lemma peer_id_is_stable_witness :
  ∃ p', objects (run (exec [Connection OPEN bytesA; Connection OPEN bytesB])
                   [Message 0 (JoinRoom (Some gameBoss));
                    Message 1 (JoinRoom (Some gameBoss)); Close 0]).1 !! 1 = Some p' ∧
        Peer.id p' = "0000000b".
Proof.
  apply (peer_id_is_stable (exec [Connection OPEN bytesA; Connection OPEN bytesB]) _ 1
           (Peer.mk OPEN "0000000b" true None false)).
  reflexivity.
Defined.

(** *** Rooms over time *)

Lemma truthy_Some (o : option string) k :
  (if truthy o then o else None) = Some k → o = Some k.
Proof. destruct o; simpl; [|done]. by case_bool_decide. Qed.

(** X3: a room that exists is still there after any event, with the same
    [hostId], unless the event is the disconnect of a peer whose fields make
    it the host of this room ([isHost] set and [roomKey] equal to the key):
    no message, no client's disconnect and no other connection removes a
    room or changes its host. *)
Theorem room_persists s e k rm :
  rooms s !! k = Some rm →
  (∃ rm', rooms (step s e).1 !! k = Some rm' ∧ Room.hostId rm' = Room.hostId rm) ∨
  (rooms (step s e).1 !! k = None ∧ ∃ peer, e = Close peer ∧ hostOf s peer k).
Proof.
  intros Hrm.
  destruct e as [socket rnd|peer [payload|target payload|target payload|ty|]|peer|peer|peer|peer st];
    simpl; try (left; by eauto).
  - left. unfold handleJoinRoom. destruct (objects s !! peer) as [p|]; [|by eauto].
    destruct payload as [pl|]; [|by eauto].
    destruct (truthy (project pl) && truthy (room pl)); [|by eauto].
    destruct (decide (roomKeyOf pl = k)) as [->|Hne].
    + rewrite Hrm. simpl. rewrite lookup_insert_eq. by eauto.
    + destruct (rooms s !! roomKeyOf pl); simpl; rewrite lookup_insert_ne by done; eauto.
  - left. unfold routeSignal. destruct (objects s !! peer); [|by eauto].
    destruct (_ ≫= _); by eauto.
  - left. unfold routeData. destruct (objects s !! peer); [|by eauto].
    destruct (_ ≫= _); by eauto.
  - unfold handleDisconnect. destruct (objects s !! peer) as [p|] eqn:Hp; [|left; by eauto].
    destruct (if truthy (Peer.roomKey p) then Peer.roomKey p else None) as [k0|] eqn:Hk0;
      [|left; by eauto].
    apply truthy_Some in Hk0.
    destruct (rooms s !! k0) as [rm0|] eqn:Hrm0; [|left; by eauto].
    destruct (Peer.isHost p) eqn:Hhost.
    + destruct (notifyClients _ _ _) as [objs out]. simpl.
      destruct (decide (k0 = k)) as [->|Hne].
      * right. rewrite lookup_delete_eq. split; [done|]. exists peer. split; [done|].
        exists p. by rewrite Hrm.
      * left. rewrite lookup_delete_ne by done. eauto.
    + left. simpl. destruct (decide (k0 = k)) as [->|Hne].
      * rewrite lookup_insert_eq. simplify_eq. eauto.
      * rewrite lookup_insert_ne by done. eauto.
Qed.

Lemma room_persists_witness :
  ∃ rm', rooms (step (exec hostAndClient) (Close 1)).1 !! "game#default#boss" = Some rm' ∧
         Room.hostId rm' = "0000000a".
Proof.
  destruct (room_persists (exec hostAndClient) (Close 1) "game#default#boss"
              (Room.mk "0000000a" ["0000000b"])) as [H|[H _]].
  - reflexivity.
  - exact H.
  - vm_compute in H. discriminate H.
Defined.

(** *** What a message can do *)

(** X4: no inbound message registers, unregisters or replaces a peer, and
    a message other than [join-room] changes nothing in the state. *)
Theorem message_keeps_registry s sender data :
  peers (handleMessage s sender data).1 = peers s ∧
  ((∀ payload, data ≠ JoinRoom payload) → (handleMessage s sender data).1 = s).
Proof.
  destruct data as [payload|target payload|target payload|ty|]; simpl.
  - split; [|by intros H; destruct (H payload)].
    unfold handleJoinRoom. destruct (objects s !! sender); [|done].
    destruct payload as [pl|]; [|done].
    destruct (truthy (project pl) && truthy (room pl)); [|done].
    by destruct (rooms s !! roomKeyOf pl).
  - unfold routeSignal. destruct (objects s !! sender); [|done]. by destruct (_ ≫= _).
  - unfold routeData. destruct (objects s !! sender); [|done]. by destruct (_ ≫= _).
  - done.
  - done.
Qed.

(** X5: an [error] frame is only ever written to the peer whose message is
    being handled, and only in two cases: code 400 for a [join-room] that
    fails validation, code 404 for a [signal] whose target is not
    registered. *)
Theorem error_goes_to_sender s sender data r code msg :
  (r, Error code msg) ∈ (handleMessage s sender data).2 →
  r = sender ∧
  ((code = 400%Z ∧ ∃ payload, data = JoinRoom payload ∧ validJoin payload = false) ∨
   (code = 404%Z ∧ ∃ target payload,
      data = Signal target payload ∧ target ≫= (λ t, peers s !! t) = None)).
Proof.
  destruct data as [payload|target payload|target payload|ty|]; simpl;
    try by intros ?%elem_of_nil.
  - unfold handleJoinRoom. destruct (objects s !! sender) as [p|]; [|by intros ?%elem_of_nil].
    destruct payload as [pl|].
    + simpl. destruct (truthy (project pl) && truthy (room pl)) eqn:Hv.
      * destruct (rooms s !! roomKeyOf pl) as [rm|]; simpl.
        -- intros [He|He]%elem_of_app; [by apply elem_of_send in He as [? _]|].
           destruct (peers s !! Room.hostId rm); [|by apply elem_of_nil in He].
           by apply elem_of_send in He as [? _].
        -- by intros [? _]%elem_of_send.
      * intros [[= -> -> ->] _]%elem_of_send. split; [done|]. left. split; [done|].
        by exists (Some pl).
    + intros [[= -> -> ->] _]%elem_of_send. split; [done|]. left. split; [done|].
      by exists None.
  - unfold routeSignal. destruct (objects s !! sender) as [p|]; [|by intros ?%elem_of_nil].
    destruct (target ≫= _) eqn:Ht; simpl.
    + by intros [? _]%elem_of_send.
    + intros [[= -> -> ->] _]%elem_of_send. split; [done|]. right. split; [done|]. eauto.
  - unfold routeData. destruct (objects s !! sender) as [p|]; [|by intros ?%elem_of_nil].
    destruct (target ≫= _); simpl; [|by intros ?%elem_of_nil].
    by intros [? _]%elem_of_send.
Qed.

Lemma error_goes_to_sender_witness :
  0 = 0 ∧
  ((400 = 400 ∧ ∃ payload, JoinRoom None = JoinRoom payload ∧ validJoin payload = false) ∨
   (400 = 404 ∧ ∃ target payload,
      JoinRoom None = Signal target payload ∧
      target ≫= (λ t, peers (exec [Connection OPEN bytesA]) !! t) = None))%Z.
Proof.
  apply (error_goes_to_sender (exec [Connection OPEN bytesA]) 0 (JoinRoom None) 0 400
           "Dados de projeto/sala incompletos.").
  by left.
Defined.

(** X6: a relayed frame is authentic.  A [signal] (or [data]) frame is
    written only while a [signal] (or [data]) message is handled; it goes to
    the peer registered under the target of that message; its [sender] is
    the id of the peer object the message came from, not something the
    message says; and its payload is the payload of the message. *)
Theorem relayed_frame_is_authentic s sender data r from payload :
  ((r, SignalTo from payload) ∈ (handleMessage s sender data).2 →
   ∃ p target, objects s !! sender = Some p ∧ from = Peer.id p ∧
     data = Signal (Some target) payload ∧ peers s !! target = Some r) ∧
  ((r, DataTo from payload) ∈ (handleMessage s sender data).2 →
   ∃ p target, objects s !! sender = Some p ∧ from = Peer.id p ∧
     data = Data (Some target) payload ∧ peers s !! target = Some r).
Proof.
  destruct data as [pl|target pl|target pl|ty|]; simpl;
    try (split; by intros ?%elem_of_nil).
  - unfold handleJoinRoom. destruct (objects s !! sender) as [p|];
      [|split; by intros ?%elem_of_nil].
    destruct pl as [pl|]; [|split; by intros [? _]%elem_of_send].
    destruct (truthy (project pl) && truthy (room pl));
      [|split; by intros [? _]%elem_of_send].
    destruct (rooms s !! roomKeyOf pl) as [rm|]; simpl;
      [|split; by intros [? _]%elem_of_send].
    split; (intros [He|He]%elem_of_app; [by apply elem_of_send in He as [? _]|];
      destruct (peers s !! Room.hostId rm); [|by apply elem_of_nil in He];
      by apply elem_of_send in He as [? _]).
  - unfold routeSignal. destruct (objects s !! sender) as [p|];
      [|split; by intros ?%elem_of_nil].
    destruct target as [t|]; simpl.
    + destruct (peers s !! t) as [tp|] eqn:Ht; simpl;
        [|split; by intros [? _]%elem_of_send].
      split; [|by intros [? _]%elem_of_send].
      intros [[= -> -> ->] _]%elem_of_send. by exists p, t.
    + split; by intros [? _]%elem_of_send.
  - unfold routeData. destruct (objects s !! sender) as [p|];
      [|split; by intros ?%elem_of_nil].
    destruct target as [t|]; simpl; [|split; by intros ?%elem_of_nil].
    destruct (peers s !! t) as [tp|] eqn:Ht; simpl; [|split; by intros ?%elem_of_nil].
    split; [by intros [? _]%elem_of_send|].
    intros [[= -> -> ->] _]%elem_of_send. by exists p, t.
Qed.

Lemma message_keeps_registry_witness :
  (handleMessage (exec hostAndClient) 1 (Signal (Some "0000000a") None)).1 = exec hostAndClient.
Proof.
  destruct (message_keeps_registry (exec hostAndClient) 1 (Signal (Some "0000000a") None))
    as [_ H].
  apply H. intros payload. discriminate.
Defined.

Lemma relayed_frame_is_authentic_witness :
  ∃ p target, objects (exec hostAndClient) !! 1 = Some p ∧ "0000000b" = Peer.id p ∧
    Signal (Some "0000000a") (Some (JStr "offer")) = Signal (Some target) (Some (JStr "offer")) ∧
    peers (exec hostAndClient) !! target = Some 0.
Proof.
  destruct (relayed_frame_is_authentic (exec hostAndClient) 1
              (Signal (Some "0000000a") (Some (JStr "offer"))) 0 "0000000b"
              (Some (JStr "offer"))) as [H _].
  apply H. by left.
Defined.

(** *** Round trips *)

(** X7: a connection followed by the disconnect of the new peer leaves the
    rooms as they were and the registry without the generated id; when that
    id was not registered before, the registry is back to what it was.  The
    disconnect writes no frame. *)
Theorem connect_then_close s socket randomBytes :
  let s1 := (handleConnection s socket randomBytes).1 in
  let s2 := (handleDisconnect s1 (length (objects s))).1 in
  peers s2 = delete (generateId randomBytes) (peers s) ∧
  (peers s !! generateId randomBytes = None → peers s2 = peers s) ∧
  rooms s2 = rooms s ∧
  (handleDisconnect s1 (length (objects s))).2 = [].
Proof.
  simpl. unfold handleDisconnect. simpl.
  rewrite lookup_app_r, Nat.sub_diag by done. simpl.
  rewrite delete_insert_eq. split_and!; [done| |done..].
  intros Hfresh. by apply delete_id.
Qed.

Lemma connect_then_close_witness :
  peers (handleDisconnect (handleConnection (exec hostAndClient) OPEN bytesC).1 2).1
  = peers (exec hostAndClient).
Proof.
  destruct (connect_then_close (exec hostAndClient) OPEN bytesC) as (_ & H & _).
  apply H. reflexivity.
Defined.

(** X8: a peer that creates a room (valid [join-room], no room under the
    key) and then disconnects leaves the room directory exactly as it was
    before the join. *)
Theorem create_then_close s peer p pl :
  objects s !! peer = Some p →
  validJoin (Some pl) = true →
  rooms s !! roomKeyOf pl = None →
  let s1 := (handleJoinRoom s peer (Some pl)).1 in
  let s2 := (handleDisconnect s1 peer).1 in
  rooms s2 = rooms s ∧
  peers s2 = delete (Peer.id p) (peers s) ∧
  (handleDisconnect s1 peer).2 = [].
Proof.
  intros Hp Hvalid Hnone. simpl in *. unfold handleJoinRoom. rewrite Hp, Hvalid, Hnone.
  unfold handleDisconnect. simpl.
  rewrite list_lookup_insert_eq by by eapply lookup_lt_Some. simpl.
  rewrite bool_decide_eq_true_2 by apply roomKeyOf_nonempty.
  rewrite lookup_insert_eq. simpl. rewrite delete_insert_eq.
  split_and!; [|done..]. by apply delete_id.
Qed.

Lemma create_then_close_witness :
  rooms (handleDisconnect
           (handleJoinRoom (exec [Connection OPEN bytesA]) 0 (Some gameBoss)).1 0).1
  = rooms (exec [Connection OPEN bytesA]).
Proof.
  destruct (create_then_close (exec [Connection OPEN bytesA]) 0
              (Peer.mk OPEN "0000000a" true None false) gameBoss) as (H & _);
    [reflexivity..|exact H].
Defined.

Lemma set_delete_add x l : x ∉ l → set_delete x (set_add x l) = l.
Proof.
  intros Hx. unfold set_add, set_delete. rewrite decide_False by done.
  rewrite filter_app, filter_cons, decide_False, filter_nil, app_nil_r by (by intros []).
  induction l as [|y l IH]; [done|].
  apply not_elem_of_cons in Hx as [Hne Hx].
  rewrite filter_cons, decide_True by done. f_equal. by apply IH.
Qed.

(** X9: a peer that joins an existing room, in whose member set it is
    not, and then disconnects leaves the room directory exactly as it was
    before the join; a host that is registered under another id, with an
    OPEN socket, is written [peer-joined] and then [peer-left] for it. *)
Theorem join_then_close es peer p pl rm :
  objects (exec es) !! peer = Some p →
  validJoin (Some pl) = true →
  rooms (exec es) !! roomKeyOf pl = Some rm →
  Peer.id p ∉ Room.peers rm →
  let s1 := (handleJoinRoom (exec es) peer (Some pl)).1 in
  let out1 := (handleJoinRoom (exec es) peer (Some pl)).2 in
  let s2 := (handleDisconnect s1 peer).1 in
  let out2 := (handleDisconnect s1 peer).2 in
  rooms s2 = rooms (exec es) ∧
  ∀ hostPeer h, peers (exec es) !! Room.hostId rm = Some hostPeer →
    Room.hostId rm ≠ Peer.id p →
    objects (exec es) !! hostPeer = Some h → Peer.socket h = OPEN →
    framesTo hostPeer (out1 ++ out2) =
      [(hostPeer, PeerJoined (Peer.id p)); (hostPeer, PeerLeft (Peer.id p))].
Proof.
  intros Hp Hvalid Hrm Hnin. pose proof (wf_exec es) as Hwf.
  generalize dependent (exec es). intros s Hp Hrm Hwf. simpl in *.
  unfold handleJoinRoom. rewrite Hp, Hvalid, Hrm.
  unfold handleDisconnect. simpl.
  rewrite list_lookup_insert_eq by by eapply lookup_lt_Some. simpl.
  rewrite bool_decide_eq_true_2 by apply roomKeyOf_nonempty.
  rewrite lookup_insert_eq. simpl. rewrite insert_insert_eq, set_delete_add by done.
  split; [apply insert_id; by destruct rm|].
  intros hostPeer h Hh Hne Hobj Hopen.
  rewrite Hh, lookup_delete_ne, Hh by done.
  assert (hostPeer ≠ peer) as Hneq.
  { intros ->. destruct (wf_registry _ Hwf _ _ Hh) as (q & Hq & Hid). congruence. }
  rewrite !framesTo_app.
  rewrite (framesTo_none hostPeer (send _ peer _))
    by (intros e [-> _]%elem_of_send; simpl; congruence).
  rewrite !(send_open _ hostPeer h)
    by (try done; by rewrite list_lookup_insert_ne).
  by rewrite !framesTo_all by (by intros e ->%list_elem_of_singleton).
Qed.

Lemma join_then_close_witness :
  rooms (handleDisconnect
           (handleJoinRoom (exec (hostAndClient ++ [Connection OPEN bytesC])) 2
              (Some gameBoss)).1 2).1
  = rooms (exec (hostAndClient ++ [Connection OPEN bytesC])).
Proof.
  destruct (join_then_close (hostAndClient ++ [Connection OPEN bytesC]) 2
              (Peer.mk OPEN "0000000c" true None false) gameBoss
              (Room.mk "0000000a" ["0000000b"])) as (H & _);
    [reflexivity..| |exact H].
  apply (bool_decide_unpack _). by vm_compute.
Defined.

(** *** After a disconnect *)

Lemma handleDisconnect_registry s peer p :
  objects s !! peer = Some p →
  peers (handleDisconnect s peer).1 = delete (Peer.id p) (peers s).
Proof.
  intros Hp. unfold handleDisconnect. rewrite Hp.
  destruct (if truthy (Peer.roomKey p) then Peer.roomKey p else None) as [k|]; [|done].
  destruct (rooms s !! k) as [rm|]; [|done].
  destruct (Peer.isHost p); [|done]. by destruct (notifyClients _ _ _).
Qed.

Lemma handleDisconnect_lookup s peer r p :
  objects s !! r = Some p →
  ∃ p', objects (handleDisconnect s peer).1 !! r = Some p' ∧
        Peer.id p' = Peer.id p ∧ Peer.socket p' = Peer.socket p.
Proof.
  intros Hp.
  assert ((Peer.id <$> objects (handleDisconnect s peer).1) !! r = Some (Peer.id p)) as Hi
    by (by rewrite handleDisconnect_ids, list_lookup_fmap, Hp).
  assert ((Peer.socket <$> objects (handleDisconnect s peer).1) !! r = Some (Peer.socket p))
    as Hs by (by rewrite handleDisconnect_sockets, list_lookup_fmap, Hp).
  rewrite list_lookup_fmap in Hi. rewrite list_lookup_fmap in Hs.
  destruct (objects (handleDisconnect s peer).1 !! r) as [p'|]; simplify_eq/=. eauto.
Qed.

(** X10: right after the disconnect of a peer, its id is no longer
    routable: a [signal] addressed to it is answered with [error] 404 to a
    sender whose socket is OPEN, a [data] message addressed to it is
    dropped without any frame, and neither changes the state. *)
Theorem signal_after_close s peer p sender q payload :
  objects s !! peer = Some p →
  objects s !! sender = Some q → Peer.socket q = OPEN →
  let s1 := (handleDisconnect s peer).1 in
  routeSignal s1 sender (Some (Peer.id p)) payload =
    (s1, [(sender, Error 404 "Peer alvo desconectado.")]) ∧
  routeData s1 sender (Some (Peer.id p)) payload = (s1, []).
Proof.
  intros Hp Hq Hopen s1.
  destruct (handleDisconnect_lookup s peer sender q Hq) as (q' & Hq' & _ & Hs).
  assert (Some (Peer.id p) ≫= (λ t, peers s1 !! t) = None) as Hgone.
  { subst s1. simpl. rewrite (handleDisconnect_registry s peer p) by done.
    apply lookup_delete_eq. }
  split; [|by apply routeData_unknown_target].
  rewrite (routeSignal_unknown_target s1 sender q') by done.
  rewrite decide_True by congruence. done.
Qed.

Lemma signal_after_close_witness :
  let s1 := (handleDisconnect (exec hostAndClient) 0).1 in
  routeSignal s1 1 (Some "0000000a") None =
    (s1, [(1, Error 404 "Peer alvo desconectado.")]) ∧
  routeData s1 1 (Some "0000000a") None = (s1, []).
Proof.
  apply (signal_after_close (exec hostAndClient) 0
           (Peer.mk OPEN "0000000a" true (Some "game#default#boss") true) 1
           (Peer.mk OPEN "0000000b" true (Some "game#default#boss") false));
    reflexivity.
Defined.

Lemma handleDisconnect_host_rooms s peer p k :
  wf s → objects s !! peer = Some p → Peer.isHost p = true →
  Peer.roomKey p = Some k → is_Some (rooms s !! k) →
  rooms (handleDisconnect s peer).1 = delete k (rooms s).
Proof.
  intros Hwf Hp Hhost Hk [rm Hrm]. unfold handleDisconnect. rewrite Hp, Hk. simpl.
  rewrite bool_decide_eq_true_2.
  2:{ intros ->. by eapply (wf_roomKey _ Hwf). }
  rewrite Hrm, Hhost. by destruct (notifyClients _ _ _).
Qed.

(** X11: a room key can be used again after its host has left: the next
    peer that sends a valid [join-room] with this key finds no room, becomes
    the host of a new room with an empty member set, and is written
    [room-created] when its socket is OPEN. *)
Theorem room_recreated_after_host_left es host k peer p pl :
  hostOf (exec es) host k →
  objects (exec es) !! peer = Some p →
  validJoin (Some pl) = true → roomKeyOf pl = k →
  let s1 := (handleDisconnect (exec es) host).1 in
  rooms s1 !! k = None ∧
  rooms (handleJoinRoom s1 peer (Some pl)).1 !! k = Some (Room.mk (Peer.id p) []) ∧
  (Peer.socket p = OPEN →
   (handleJoinRoom s1 peer (Some pl)).2 =
     [(peer, RoomCreated "host" (str (room pl)) "Você é o Host. Aguardando peers...")]).
Proof.
  intros (h & Hh & Hhost & Hk & Hsome) Hp Hvalid Hkey s1.
  assert (rooms s1 !! k = None) as Hnone.
  { subst s1. rewrite (handleDisconnect_host_rooms _ host h k); try done; [|apply wf_exec].
    apply lookup_delete_eq. }
  destruct (handleDisconnect_lookup (exec es) host peer p Hp) as (p' & Hp' & Hid & Hs).
  fold s1 in Hp'. split; [done|]. simpl in Hvalid.
  unfold handleJoinRoom. rewrite Hp', Hvalid, Hkey, Hnone. simpl.
  rewrite lookup_insert_eq, Hid. split; [done|].
  intros Hopen. apply (send_open _ _ (asHost p' k)); [|simpl; congruence].
  apply list_lookup_insert_eq. by eapply lookup_lt_Some.
Qed.

Lemma room_recreated_after_host_left_witness :
  rooms (handleJoinRoom (handleDisconnect (exec hostAndClient) 0).1 1 (Some gameBoss)).1
    !! "game#default#boss" = Some (Room.mk "0000000b" []).
Proof.
  destruct (room_recreated_after_host_left hostAndClient 0 "game#default#boss" 1
              (Peer.mk OPEN "0000000b" true (Some "game#default#boss") false) gameBoss)
    as (_ & H & _); [|reflexivity..|exact H].
  eexists. split_and!; [reflexivity..|]. by eexists.
Defined.

(** X12: a host that sends [join-room] for its own room again is treated
    like any later joiner: it becomes a client of the room ([isHost] reset)
    and its id enters the member set, while the room keeps its [hostId].
    Its later disconnect takes the client path: the peer is unregistered,
    but the room entry stays in the directory. *)
Theorem host_rejoins_own_room s peer k p pl rm :
  hostOf s peer k →
  objects s !! peer = Some p → rooms s !! k = Some rm →
  validJoin (Some pl) = true → roomKeyOf pl = k →
  let s1 := (handleJoinRoom s peer (Some pl)).1 in
  let s2 := (handleDisconnect s1 peer).1 in
  clientOf s1 peer k ∧ memberOf s1 (Peer.id p) k ∧ ¬ hostOf s1 peer k ∧
  (∃ rm2, rooms s2 !! k = Some rm2 ∧ Room.hostId rm2 = Room.hostId rm) ∧
  peers s2 !! Peer.id p = None.
Proof.
  intros _ Hp Hrm Hvalid Hkey. simpl in *.
  assert (objects (handleJoinRoom s peer (Some pl)).1 !! peer = Some (asClient p k) ∧
          rooms (handleJoinRoom s peer (Some pl)).1 !! k =
            Some (Room.mk (Room.hostId rm) (set_add (Peer.id p) (Room.peers rm))) ∧
          peers (handleJoinRoom s peer (Some pl)).1 = peers s) as (Hobj & Hroom & Hreg).
  { unfold handleJoinRoom. rewrite Hp, Hvalid, Hkey, Hrm. simpl.
    rewrite lookup_insert_eq. split_and!; [|done..].
    apply list_lookup_insert_eq. by eapply lookup_lt_Some. }
  split_and!.
  - exists (asClient p k). split_and!; [done..|]. by rewrite Hroom.
  - eexists. split; [done|]. simpl. apply elem_of_set_add. by left.
  - intros (q & Hq & Hhost & _). rewrite Hobj in Hq. by simplify_eq.
  - unfold handleDisconnect. rewrite Hobj. simpl.
    rewrite bool_decide_eq_true_2 by (subst k; apply roomKeyOf_nonempty).
    rewrite Hroom. simpl. rewrite lookup_insert_eq. by eexists.
  - rewrite (handleDisconnect_registry _ peer (asClient p k)) by done.
    apply lookup_delete_eq.
Qed.

Lemma host_rejoins_own_room_witness :
  ∃ rm2, rooms (handleDisconnect
                  (handleJoinRoom (exec hostAndClient) 0 (Some gameBoss)).1 0).1
           !! "game#default#boss" = Some rm2 ∧ Room.hostId rm2 = "0000000a".
Proof.
  destruct (host_rejoins_own_room (exec hostAndClient) 0 "game#default#boss"
              (Peer.mk OPEN "0000000a" true (Some "game#default#boss") true) gameBoss
              (Room.mk "0000000a" ["0000000b"])) as (_ & _ & _ & H & _);
    [|reflexivity..|exact H].
  eexists. split_and!; [reflexivity..|]. by eexists.
Defined.

(** *** Room keys and identities as strings *)

Lemma no_sep_get s :
  Forall (λ c, c ≠ "#"%char) (String.list_ascii_of_string s) →
  ∀ i, String.get i s ≠ Some "#"%char.
Proof.
  induction s as [|a s IH]; simpl; intros Hall i; [by destruct i|].
  apply Forall_cons in Hall as [Ha Hs]. destruct i as [|i]; simpl.
  - congruence.
  - by apply IH.
Qed.

(** On payloads whose fields are strings, [roomKeyOfValues] is the key of
    [handleJoinRoom]. *)
Lemma roomKeyOfValues_strings p i r :
  roomKeyOfValues (λ s, bool_decide (s ≠ "")) id p i r =
  roomKeyOf (mkJoin (Some p) i (Some r)).
Proof. done. Qed.

(** X13: the room key determines the tenant as the server reads it.  When
    the separator [#] occurs neither in the rendering of the project nor in
    the instance in effect ([default] for an omitted or falsy instance,
    else its rendering), two payloads with the same key have projects that
    render to the same string, the same instance in effect and rooms that
    render to the same string.  This holds for fields of any JSON type;
    values that render alike are one tenant to the server. *)
Theorem roomKey_determines_tenant {V : Type} (truthyV : V → bool) (toStringV : V → string)
    p1 i1 r1 p2 i2 r2 :
  Forall (λ c, c ≠ "#"%char) (String.list_ascii_of_string (toStringV p1)) →
  Forall (λ c, c ≠ "#"%char) (String.list_ascii_of_string (toStringV p2)) →
  Forall (λ c, c ≠ "#"%char)
         (String.list_ascii_of_string (instanceOf truthyV toStringV i1)) →
  Forall (λ c, c ≠ "#"%char)
         (String.list_ascii_of_string (instanceOf truthyV toStringV i2)) →
  roomKeyOfValues truthyV toStringV p1 i1 r1 = roomKeyOfValues truthyV toStringV p2 i2 r2 →
  toStringV p1 = toStringV p2 ∧
  instanceOf truthyV toStringV i1 = instanceOf truthyV toStringV i2 ∧
  toStringV r1 = toStringV r2.
Proof.
  intros H1 H2 H3 H4 Heq. unfold roomKeyOfValues in Heq.
  apply append_sep_inj in Heq as [Hp Heq]; [|by apply no_sep_get..].
  apply append_sep_inj in Heq as [Hi Hr]; [|by apply no_sep_get..].
  done.
Qed.

Lemma roomKey_determines_tenant_witness :
  instanceOf (λ s : string, bool_decide (s ≠ "")) id None =
  instanceOf (λ s : string, bool_decide (s ≠ "")) id (Some "default").
Proof.
  destruct (roomKey_determines_tenant (λ s : string, bool_decide (s ≠ "")) id
              "game" None "boss#1" "game" (Some "default") "boss#1") as (_ & H & _);
    [apply (bool_decide_unpack _); by vm_compute..|exact H].
Defined.

Lemma hexDigit_inj a b : (a < 16)%N → (b < 16)%N → hexDigit a = hexDigit b → a = b.
Proof.
  intros Ha Hb.
  destruct a as [|a]; [|do 4 (try (destruct a as [a|a|]; try lia))];
  (destruct b as [|b]; [|do 4 (try (destruct b as [b|b|]; try lia))]); simpl; congruence.
Qed.

Lemma hex_byte_inj b1 b2 :
  hexDigit (Byte.to_N b1 / 16) = hexDigit (Byte.to_N b2 / 16) →
  hexDigit (Byte.to_N b1 `mod` 16) = hexDigit (Byte.to_N b2 `mod` 16) →
  b1 = b2.
Proof.
  intros Hhi Hlo.
  pose proof (Byte.to_N_bounded b1). pose proof (Byte.to_N_bounded b2).
  apply hexDigit_inj in Hhi; [|apply N.Div0.div_lt_upper_bound; lia..].
  apply hexDigit_inj in Hlo; [|apply N.mod_lt; lia..].
  assert (Byte.to_N b1 = Byte.to_N b2) as Heq.
  { rewrite (N.div_mod' (Byte.to_N b1) 16), (N.div_mod' (Byte.to_N b2) 16). congruence. }
  pose proof (Byte.of_to_N b1) as E1. pose proof (Byte.of_to_N b2) as E2.
  rewrite Heq in E1. congruence.
Qed.

(** X14: the hex rendering loses nothing: two connections are given the
    same id only when their random bytes are the same. *)
Theorem generateId_inj bs1 bs2 : generateId bs1 = generateId bs2 → bs1 = bs2.
Proof.
  unfold generateId. revert bs2.
  induction bs1 as [|b1 bs1 IH]; intros [|b2 bs2]; simpl; try done.
  intros [= H1 H2 H3]. f_equal; [by apply hex_byte_inj|by apply IH].
Qed.

Lemma generateId_inj_witness : bytesA = [x00; x00; x00; x0a].
Proof. apply (generateId_inj bytesA [x00; x00; x00; x0a]). reflexivity. Defined.

Lemma hexDigit_hex n : hexDigit n ∈ hexDigits.
Proof.
  unfold hexDigits.
  destruct n as [|n]; [|do 4 (try (destruct n as [n|n|]))];
    apply list_elem_of_In; simpl; auto 20.
Qed.

(** X15: a generated id has two characters per random byte (eight for the
    four bytes the server draws), each a lowercase hexadecimal digit; in
    particular an id never contains the separator [#] of the room keys. *)
Theorem generateId_format bs :
  String.length (generateId bs) = 2 * length bs ∧
  Forall (λ c, c ∈ hexDigits) (String.list_ascii_of_string (generateId bs)) ∧
  Forall (λ c, c ≠ "#"%char) (String.list_ascii_of_string (generateId bs)).
Proof.
  assert (Forall (λ c, c ∈ hexDigits) (String.list_ascii_of_string (generateId bs))) as Hhex.
  { unfold generateId. induction bs as [|b bs IH]; simpl; [apply Forall_nil_2|].
    repeat apply Forall_cons_2; [apply hexDigit_hex..|done]. }
  split_and!; [|done|].
  - clear Hhex. unfold generateId. induction bs as [|b bs IH]; [done|].
    cbn [toHex String.length length]. rewrite IH. lia.
  - eapply Forall_impl; [exact Hhex|]. intros c Hc ->. unfold hexDigits in Hc.
    repeat (apply elem_of_cons in Hc as [Hc|Hc]; [discriminate|]).
    by apply elem_of_nil in Hc.
Qed.

(** ** The heartbeat loop *)

Section HeartbeatFacts.
Context {P : Type} (alive : P → bool) (silence kill : P → P).
Hypothesis silence_alive : ∀ p, alive (silence p) = false.
Hypothesis kill_alive : ∀ p, alive (kill p) = alive p.

Local Abbreviation loop := (heartbeatLoop alive silence kill).

(** What one visit does to a peer object. *)
Local Abbreviation visit := (λ p, if alive p then silence p else kill p).

(** The command one visit issues. *)
Local Abbreviation command objs :=
  (λ r, (λ p, if alive p then SendPing r else Terminate r) <$> objs !! r).

Lemma heartbeatLoop_notin order : ∀ (objs : list P) r,
  r ∉ order → (loop objs order).1 !! r = objs !! r.
Proof.
  induction order as [|x rest IH]; intros objs r Hr; [done|].
  apply not_elem_of_cons in Hr as [Hne Hr]. cbn [heartbeatLoop].
  destruct (objs !! x) as [p|] eqn:Hx; [|by apply IH].
  destruct (alive p).
  - specialize (IH (<[x := silence p]> objs) r Hr).
    destruct (loop (<[x := silence p]> objs) rest). simpl in *.
    by rewrite IH, list_lookup_insert_ne.
  - specialize (IH (<[x := kill p]> objs) r Hr).
    destruct (loop (<[x := kill p]> objs) rest). simpl in *.
    by rewrite IH, list_lookup_insert_ne.
Qed.

Lemma heartbeatLoop_in order : NoDup order → ∀ (objs : list P) r,
  r ∈ order → (loop objs order).1 !! r = visit <$> objs !! r.
Proof.
  induction 1 as [|x rest Hx Hrest IH]; intros objs r Hr; [by apply elem_of_nil in Hr|].
  cbn [heartbeatLoop].
  destruct (decide (r = x)) as [->|Hne].
  - destruct (objs !! x) as [p|] eqn:Hp.
    + destruct (alive p) eqn:Ha.
      * pose proof (heartbeatLoop_notin rest (<[x := silence p]> objs) x Hx) as Hn.
        destruct (loop (<[x := silence p]> objs) rest). simpl in *.
        rewrite Hn, list_lookup_insert_eq by by eapply lookup_lt_Some. by rewrite Ha.
      * pose proof (heartbeatLoop_notin rest (<[x := kill p]> objs) x Hx) as Hn.
        destruct (loop (<[x := kill p]> objs) rest). simpl in *.
        rewrite Hn, list_lookup_insert_eq by by eapply lookup_lt_Some. by rewrite Ha.
    + by rewrite heartbeatLoop_notin, Hp.
  - apply elem_of_cons in Hr as [?|Hr]; [done|].
    destruct (objs !! x) as [p|] eqn:Hp; [|by apply IH].
    destruct (alive p).
    + specialize (IH (<[x := silence p]> objs) r Hr).
      destruct (loop (<[x := silence p]> objs) rest). simpl in *.
      by rewrite IH, list_lookup_insert_ne.
    + specialize (IH (<[x := kill p]> objs) r Hr).
      destruct (loop (<[x := kill p]> objs) rest). simpl in *.
      by rewrite IH, list_lookup_insert_ne.
Qed.

Lemma command_insert (objs : list P) (x : ref) q (rest : list ref) :
  x ∉ rest → omap (command (<[x := q]> objs)) rest = omap (command objs) rest.
Proof.
  intros Hx. apply list_omap_ext, Forall2_same_length_lookup_2; [done|].
  intros i r r' Hr Hr'. simplify_eq.
  rewrite list_lookup_insert_ne; [done|]. intros ->.
  apply Hx. by eapply list_elem_of_lookup_2.
Qed.

Lemma heartbeatLoop_cmds order : NoDup order → ∀ (objs : list P),
  (loop objs order).2 = omap (command objs) order.
Proof.
  induction 1 as [|x rest Hx Hrest IH]; intros objs; [done|].
  cbn [heartbeatLoop omap list_omap]. fold (omap (command objs) rest).
  destruct (objs !! x) as [p|] eqn:Hp; simpl; [|apply IH].
  destruct (alive p).
  - specialize (IH (<[x := silence p]> objs)).
    destruct (loop (<[x := silence p]> objs) rest). simpl in *. f_equal. rewrite IH.
    by apply command_insert.
  - specialize (IH (<[x := kill p]> objs)).
    destruct (loop (<[x := kill p]> objs) rest). simpl in *. f_equal. rewrite IH.
    by apply command_insert.
Qed.

(** After a tick every visited peer is marked silent. *)
Lemma heartbeatLoop_silent order (objs : list P) r q :
  NoDup order → r ∈ order → (loop objs order).1 !! r = Some q → alive q = false.
Proof.
  intros Hnd Hr. rewrite heartbeatLoop_in by done.
  destruct (objs !! r) as [p|]; [|done]. intros [= <-].
  destruct (alive p) eqn:Ha; [apply silence_alive|by rewrite kill_alive].
Qed.

(** The commands of a tick on objects of which [silent] tells which are
    marked silent. *)
Lemma heartbeatLoop_cmds_map order (objs : list P) (silent : ref → bool) :
  NoDup order →
  (∀ r, r ∈ order → ∃ q, objs !! r = Some q ∧ alive q = negb (silent r)) →
  (loop objs order).2 = map (λ r, if silent r then Terminate r else SendPing r) order.
Proof.
  intros Hnd Hall. rewrite heartbeatLoop_cmds by done. clear Hnd.
  induction order as [|x rest IH]; [done|].
  cbn [omap list_omap map]. fold (omap (command objs) rest).
  destruct (Hall x) as (q & -> & Hq); [by left|]. simpl.
  rewrite Hq, IH by (intros r Hr; apply Hall; by right). by destruct (silent x).
Qed.

End HeartbeatFacts.

(** ** The heartbeat of the server with rooms *)

Lemma registryOrder_objects es order r :
  registryOrder (exec es) order → r ∈ order → is_Some (objects (exec es) !! r).
Proof.
  intros [_ Hreg] [i Hi]%Hreg.
  destruct (wf_registry _ (wf_exec es) _ _ Hi) as (p & Hp & _). by exists p.
Qed.

(** X16: one tick of the heartbeat visits every registered peer once, in
    the order of the registry, and touches nothing else in the state.  A
    peer that was alive is marked silent ([isAlive] false) and pinged; a
    peer that was already marked silent has its socket terminated, which
    leaves a CLOSED socket CLOSED and makes any other socket CLOSING, and
    is not pinged.  After the tick every registered peer is marked
    silent. *)
Theorem heartbeat_tick es order :
  registryOrder (exec es) order →
  let s := exec es in
  let s' := (heartbeat s order).1 in
  peers s' = peers s ∧ rooms s' = rooms s ∧
  (∀ r p, r ∈ order → objects s !! r = Some p →
     objects s' !! r =
       Some (if Peer.isAlive p then setAlive false p
             else setSocket (terminate (Peer.socket p)) p)) ∧
  (∀ r q, r ∈ order → objects s' !! r = Some q → Peer.isAlive q = false) ∧
  (∀ r, r ∉ order → objects s' !! r = objects s !! r) ∧
  (heartbeat s order).2 =
    map (λ r, if default false (Peer.isAlive <$> objects s !! r)
              then SendPing r else Terminate r) order.
Proof.
  intros Horder s s'. pose proof Horder as [Hnd _].
  pose proof (heartbeatLoop_in Peer.isAlive (setAlive false) terminated order Hnd
                (objects s)) as Hin.
  pose proof (heartbeatLoop_notin Peer.isAlive (setAlive false) terminated order
                (objects s)) as Hnin.
  pose proof (heartbeatLoop_cmds_map Peer.isAlive (setAlive false) terminated order
                (objects s)
                (λ r, negb (default false (Peer.isAlive <$> objects s !! r))) Hnd) as Hcmds.
  subst s'. unfold heartbeat.
  destruct (heartbeatLoop Peer.isAlive (setAlive false) terminated (objects s) order)
    as [objs cmds].
  simpl in *. split_and!; [done..| | | |].
  - intros r p Hr Hp. by rewrite (Hin r Hr), Hp.
  - intros r q Hr. rewrite (Hin r Hr). destruct (objects s !! r) as [p|]; [|done].
    intros [= <-]. by destruct (Peer.isAlive p) eqn:Ha.
  - done.
  - rewrite Hcmds.
    + apply map_ext. intros r. by destruct (default false _).
    + intros r Hr. destruct (registryOrder_objects es order r Horder Hr) as [q Hq].
      exists q. fold s in Hq. rewrite Hq. simpl. by rewrite negb_involutive.
Qed.

Lemma hostAndClient_order : registryOrder (exec hostAndClient) [0; 1].
Proof.
  split; [by apply (bool_decide_unpack _)|].
  intros r. split.
  - intros Hr. apply elem_of_cons in Hr as [->|Hr]; [by exists "0000000a"|].
    apply list_elem_of_singleton in Hr as ->. by exists "0000000b".
  - intros [i Hi].
    destruct (wf_registry _ (wf_exec hostAndClient) _ _ Hi) as (p & Hp & Hid).
    destruct r as [|[|r]]; [by left|right; by left|]. vm_compute in Hp. discriminate.
Defined.

Lemma heartbeat_tick_witness :
  (heartbeat (exec hostAndClient) [0; 1]).2 = [SendPing 0; SendPing 1].
Proof.
  destruct (heartbeat_tick hostAndClient [0; 1] hostAndClient_order)
    as (_ & _ & _ & _ & _ & H).
  exact H.
Defined.

Lemma run_pongs_state ponged : ∀ s,
  peers (run s (map Pong ponged)).1 = peers s ∧
  rooms (run s (map Pong ponged)).1 = rooms s ∧
  (∀ r, r ∉ ponged → objects (run s (map Pong ponged)).1 !! r = objects s !! r) ∧
  (∀ r p, r ∈ ponged → objects s !! r = Some p →
     ∃ q, objects (run s (map Pong ponged)).1 !! r = Some q ∧ Peer.isAlive q = true).
Proof.
  induction ponged as [|x rest IH]; intros s.
  { simpl. split_and!; [done..|]. by intros r p ?%elem_of_nil. }
  cbn [map run step].
  destruct (IH (mkServer (alter (setAlive true) x (objects s)) (peers s) (rooms s)))
    as (Hp & Hr & Hnin & Hin).
  destruct (run _ (map Pong rest)) as [s2 o2]. simpl in *.
  split_and!; [done..| |].
  - intros r [Hne Hr']%not_elem_of_cons. by rewrite Hnin, list_lookup_alter_ne.
  - intros r p Hr' Hobj. destruct (decide (r ∈ rest)) as [Hrest|Hrest].
    + destruct (decide (x = r)) as [->|Hne].
      * apply (Hin r (setAlive true p)); [done|].
        by rewrite list_lookup_alter_eq, Hobj.
      * apply (Hin r p); [done|]. by rewrite list_lookup_alter_ne.
    + apply elem_of_cons in Hr' as [->|?]; [|done].
      exists (setAlive true p). split; [|done].
      by rewrite Hnin, list_lookup_alter_eq, Hobj.
Qed.

Lemma heartbeat_tick_objects es order :
  registryOrder (exec es) order →
  (∀ r q, r ∈ order → objects (heartbeat (exec es) order).1 !! r = Some q →
     Peer.isAlive q = false) ∧
  (∀ r, r ∈ order → is_Some (objects (heartbeat (exec es) order).1 !! r)).
Proof.
  intros Horder. pose proof Horder as [Hnd _].
  pose proof (heartbeatLoop_in Peer.isAlive (setAlive false) terminated order Hnd
                (objects (exec es))) as Hin.
  unfold heartbeat.
  destruct (heartbeatLoop Peer.isAlive (setAlive false) terminated (objects (exec es)) order)
    as [objs cmds].
  simpl in *. split.
  - intros r q Hr. rewrite (Hin r Hr). destruct (objects (exec es) !! r) as [p|]; [|done].
    intros [= <-]. by destruct (Peer.isAlive p) eqn:Ha.
  - intros r Hr. rewrite (Hin r Hr).
    destruct (registryOrder_objects es order r Horder Hr) as [p ->]. by eexists.
Qed.

(** X17: a peer stays connected only if it answers: after one tick, the
    next tick (with nothing but pongs in between) pings again exactly the
    registered peers that sent a pong, and terminates the socket of every
    other registered peer. *)
Theorem heartbeat_terminates_silent_peers es order ponged :
  registryOrder (exec es) order →
  let s1 := (heartbeat (exec es) order).1 in
  let s2 := (run s1 (map Pong ponged)).1 in
  (heartbeat s2 order).2 =
    map (λ r, if bool_decide (r ∈ ponged) then SendPing r else Terminate r) order.
Proof.
  intros Horder s1 s2. pose proof Horder as [Hnd _].
  destruct (heartbeat_tick_objects es order Horder) as [Hsilent Hsome].
  fold s1 in Hsilent, Hsome.
  destruct (run_pongs_state ponged s1) as (_ & _ & Hnin & Hin). fold s2 in Hnin, Hin.
  pose proof (heartbeatLoop_cmds_map Peer.isAlive (setAlive false) terminated order
                (objects s2) (λ r, negb (bool_decide (r ∈ ponged))) Hnd) as Hcmds.
  unfold heartbeat.
  destruct (heartbeatLoop Peer.isAlive (setAlive false) terminated (objects s2) order)
    as [objs cmds].
  simpl in *. rewrite Hcmds.
  - apply map_ext. intros r. by destruct (bool_decide _).
  - intros r Hr. destruct (Hsome r Hr) as [p Hp]. rewrite negb_involutive.
    case_bool_decide as Hpong.
    + by apply (Hin r p).
    + exists p. rewrite Hnin by done. split; [done|]. by eapply Hsilent.
Qed.

Lemma heartbeat_terminates_silent_peers_witness :
  (heartbeat (run (heartbeat (exec hostAndClient) [0; 1]).1 (map Pong [1])).1 [0; 1]).2
  = [Terminate 0; SendPing 1].
Proof.
  exact (heartbeat_terminates_silent_peers hostAndClient [0; 1] [1] hostAndClient_order).
Defined.

(** ** The registry of version 1.0.0 as an ordered map *)

Section JsMap.
Context {V : Type}.
Implicit Types (m : list (string * V)) (k : string) (v : V).

Lemma mapSet_keys_present m k v : k ∈ m.*1 → (V100.mapSet k v m).*1 = m.*1.
Proof.
  induction m as [|e m IH]; csimpl; [by intros ?%elem_of_nil|].
  case_decide as He; csimpl; [by rewrite He|].
  intros [?|Hk]%elem_of_cons; [done|]. by rewrite IH.
Qed.

Lemma mapSet_keys_absent m k v : k ∉ m.*1 → (V100.mapSet k v m).*1 = m.*1 ++ [k].
Proof.
  induction m as [|e m IH]; csimpl; [done|].
  intros [Hne Hk]%not_elem_of_cons. rewrite decide_False by done. csimpl. by rewrite IH.
Qed.

Lemma mapSet_NoDup m k v : NoDup m.*1 → NoDup (V100.mapSet k v m).*1.
Proof.
  intros Hnd. destruct (decide (k ∈ m.*1)) as [Hk|Hk].
  - by rewrite mapSet_keys_present.
  - rewrite mapSet_keys_absent by done. apply NoDup_app. split_and!; [done| |apply NoDup_singleton].
    by intros x Hx ->%list_elem_of_singleton.
Qed.

Lemma elem_of_mapSet m k v e : e ∈ V100.mapSet k v m → e = (k, v) ∨ e ∈ m.
Proof.
  induction m as [|e' m IH]; simpl.
  - intros ->%list_elem_of_singleton. by left.
  - case_decide; intros [->|He]%elem_of_cons.
    + by left.
    + right. by right.
    + right. by left.
    + destruct (IH He) as [->|?]; [by left|right; by right].
Qed.

Lemma mapGet_elem m k v : V100.mapGet k m = Some v → (k, v) ∈ m.
Proof.
  induction m as [|[k' v'] m IH]; simpl; [done|].
  case_decide; [intros [= <-]; subst; by left|]. intros ?%IH. by right.
Qed.

Lemma elem_mapGet m k v : NoDup m.*1 → (k, v) ∈ m → V100.mapGet k m = Some v.
Proof.
  induction m as [|[k' v'] m IH]; csimpl; [by intros _ ?%elem_of_nil|].
  intros [Hk' Hnd]%NoDup_cons [[= -> ->]|Hin]%elem_of_cons.
  - by rewrite decide_True.
  - rewrite decide_False; [by apply IH|]. intros ->. apply Hk'.
    apply list_elem_of_fmap. by exists (k, v).
Qed.

Lemma mapGet_mapSet m k v : V100.mapGet k (V100.mapSet k v m) = Some v.
Proof.
  induction m as [|e m IH]; simpl; [by rewrite decide_True|].
  case_decide; simpl; [by rewrite decide_True|]. by rewrite decide_False.
Qed.

Lemma mapGet_mapDelete m k : V100.mapGet k (V100.mapDelete k m) = None.
Proof.
  unfold V100.mapDelete. induction m as [|e m IH]; [done|].
  rewrite filter_cons. case_decide; simpl; [|done]. by rewrite decide_False.
Qed.

Lemma mapDelete_mapSet m k v : k ∉ m.*1 → V100.mapDelete k (V100.mapSet k v m) = m.
Proof.
  unfold V100.mapDelete. induction m as [|e m IH]; csimpl.
  - intros _. by rewrite filter_cons, decide_False by (by intros []).
  - intros [Hne Hk]%not_elem_of_cons. rewrite decide_False by done.
    rewrite filter_cons, decide_True by done. by rewrite IH.
Qed.

Lemma mapDelete_NoDup m k : NoDup m.*1 → NoDup (V100.mapDelete k m).*1.
Proof.
  intros Hnd. eapply sublist_NoDup; [exact Hnd|].
  apply fmap_sublist, sublist_filter.
Qed.

Lemma values_NoDup m :
  NoDup m.*1 → (∀ k1 k2 v, (k1, v) ∈ m → (k2, v) ∈ m → k1 = k2) → NoDup m.*2.
Proof.
  induction m as [|[k v] m IH]; csimpl; [intros; apply NoDup_nil_2|].
  intros [Hk Hnd]%NoDup_cons Hinj. apply NoDup_cons. split.
  - intros ([k' v'] & Hv & Hin)%list_elem_of_fmap. simpl in Hv. subst v'.
    rewrite (Hinj k k' v) in Hk; [|by left|by right].
    apply Hk. apply list_elem_of_fmap. by exists (k', v).
  - apply IH; [done|]. intros k1 k2 v' H1 H2. apply (Hinj k1 k2 v'); by right.
Qed.

End JsMap.

Lemma filter_fst_bind {M : Type} (f : ref → list (ref * M)) (l : list ref) c :
  (∀ r e, e ∈ f r → e.1 = r) → NoDup l → c ∈ l →
  filter (λ e, e.1 = c) (l ≫= f) = f c.
Proof.
  intros Hf.
  assert (∀ out : list (ref * M), (∀ e, e ∈ out → e.1 = c) → filter (λ e, e.1 = c) out = out)
    as Hall.
  { induction out as [|e out IH]; intros He; [done|].
    rewrite filter_cons, decide_True by (apply He; left). f_equal.
    apply IH. intros e' ?. apply He. by right. }
  assert (∀ out : list (ref * M), (∀ e, e ∈ out → e.1 ≠ c) → filter (λ e, e.1 = c) out = [])
    as Hnone.
  { induction out as [|e out IH]; intros He; [done|].
    rewrite filter_cons, decide_False by (apply He; left).
    apply IH. intros e' ?. apply He. by right. }
  induction 1 as [|x l Hx Hl IH]; [by intros ?%elem_of_nil|].
  intros Hc. rewrite bind_cons, filter_app.
  destruct (decide (x = c)) as [->|Hne].
  - rewrite Hall by (intros e; apply Hf).
    rewrite Hnone; [by rewrite app_nil_r|].
    intros e (r & He & Hr)%list_elem_of_bind. apply Hf in He. congruence.
  - apply elem_of_cons in Hc as [?|Hc]; [done|].
    rewrite Hnone; [by apply IH|]. intros e He%Hf. congruence.
Qed.

Section HeartbeatKeeps.
Context {P B : Type} (alive : P → bool) (silence kill : P → P) (f : P → B).
Hypothesis f_silence : ∀ p, f (silence p) = f p.
Hypothesis f_kill : ∀ p, f (kill p) = f p.

(** A tick changes nothing that [f] reads of the peer objects. *)
Lemma heartbeatLoop_fmap order : ∀ objs : list P,
  f <$> (heartbeatLoop alive silence kill objs order).1 = f <$> objs.
Proof.
  induction order as [|x rest IH]; intros objs; [done|]. cbn [heartbeatLoop].
  destruct (objs !! x) as [p|] eqn:Hp; [|apply IH].
  destruct (alive p).
  - specialize (IH (<[x := silence p]> objs)).
    destruct (heartbeatLoop alive silence kill (<[x := silence p]> objs) rest). simpl in *.
    rewrite IH, list_fmap_insert, f_silence. apply list_insert_id.
    by rewrite list_lookup_fmap, Hp.
  - specialize (IH (<[x := kill p]> objs)).
    destruct (heartbeatLoop alive silence kill (<[x := kill p]> objs) rest). simpl in *.
    rewrite IH, list_fmap_insert, f_kill. apply list_insert_id.
    by rewrite list_lookup_fmap, Hp.
Qed.

End HeartbeatKeeps.

(** ** Well-formedness of the states of version 1.0.0 *)

Lemma v100_wf_init : V100.wf V100.init.
Proof. split; simpl; [apply NoDup_nil_2|]. by intros k r ?%elem_of_nil. Qed.

Lemma v100_wf_objects s objs :
  V100.id <$> objs = V100.id <$> V100.objects s →
  V100.wf s → V100.wf (V100.mkServer objs (V100.peers s)).
Proof.
  intros Hids [Hk Hi]. split; simpl; [done|].
  intros k r (p & Hp & Hid)%Hi.
  assert (V100.id <$> objs !! r = Some k) as Hl
    by (by rewrite <- list_lookup_fmap, Hids, list_lookup_fmap, Hp, <- Hid).
  destruct (objs !! r) as [q|]; simplify_eq/=. eauto.
Qed.

Lemma v100_id_alter (objs : list V100.Peer) (g : V100.Peer → V100.Peer) (peer : ref) :
  (∀ p, V100.id (g p) = V100.id p) → V100.id <$> alter g peer objs = V100.id <$> objs.
Proof.
  intros Hg. rewrite (list_fmap_alter _ _ (λ x, x)); [|by apply Forall_true].
  apply list_eq. intros i. rewrite list_lookup_alter.
  case_decide; [subst|done]. by destruct (_ !! _).
Qed.

Lemma v100_wf_step s e : V100.wf s → V100.wf (V100.step s e).1.
Proof.
  intros Hwf. destruct e as [sock rnd|peer data|peer|peer| |peer st]; simpl.
  - destruct Hwf as [Hk Hi]. split; simpl; [by apply mapSet_NoDup|].
    intros k r [[= -> ->]|Hin]%elem_of_mapSet.
    + eexists. split; [by rewrite lookup_app_r, Nat.sub_diag|reflexivity].
    + destruct (Hi k r Hin) as (p & Hp & Hid). exists p. split; [|done].
      by apply lookup_app_l_Some.
  - destruct data as [target payload|payload| |]; simpl; try done.
    + unfold V100.routeSignal. destruct (V100.objects s !! peer); [|done].
      by destruct (_ ≫= _).
    + unfold V100.broadcast. by destruct (V100.objects s !! peer).
  - unfold V100.handleDisconnect. destruct (V100.objects s !! peer) as [p|]; [|done].
    destruct Hwf as [Hk Hi]. split; simpl; [by apply mapDelete_NoDup|].
    intros k r [_ Hin]%list_elem_of_filter. by apply Hi.
  - by apply v100_wf_objects; [apply v100_id_alter|].
  - unfold V100.heartbeat.
    pose proof (heartbeatLoop_fmap V100.isAlive (V100.setAlive false) V100.terminated
                  V100.id (λ p, eq_refl) (λ p, eq_refl) (V100.peers s).*2 (V100.objects s))
      as Hids.
    destruct (heartbeatLoop _ _ _ _ _) as [objs cmds]. simpl in *.
    by apply v100_wf_objects.
  - by apply v100_wf_objects; [apply v100_id_alter|].
Qed.

Lemma v100_wf_run es : ∀ s, V100.wf s → V100.wf (V100.run s es).1.
Proof.
  induction es as [|e es IH]; intros s Hwf; [done|]. simpl.
  pose proof (v100_wf_step s e Hwf) as H1. destruct (V100.step s e) as [s1 o1].
  specialize (IH s1 H1). by destruct (V100.run s1 es).
Qed.

Lemma v100_wf_exec es : V100.wf (V100.exec es).
Proof. apply v100_wf_run, v100_wf_init. Qed.

Lemma v100_order_NoDup s : V100.wf s → NoDup (V100.peers s).*2.
Proof.
  intros [Hk Hi]. apply values_NoDup; [done|].
  intros k1 k2 r (p & Hp & <-)%Hi (q & Hq & <-)%Hi. congruence.
Qed.

(** ** Properties of version 1.0.0 *)

Lemma v100_elem_of_send objs peer data e :
  e ∈ V100.send objs peer data →
  e = (peer, data) ∧ ∃ p, objs !! peer = Some p ∧ V100.socket p = OPEN.
Proof.
  unfold V100.send. destruct (objs !! peer) as [p|] eqn:Hp; [|by intros ?%elem_of_nil].
  case_decide; [|by intros ?%elem_of_nil].
  intros ->%list_elem_of_singleton. eauto.
Qed.

(** X18: [broadcast] changes no state; every peer that is registered under
    an id other than the sender's and whose socket is OPEN is written
    exactly one [broadcast] frame, carrying the sender's id and the payload;
    a registered peer whose socket is not OPEN, and the sender itself, are
    written nothing; and no frame goes anywhere else. *)
Theorem v100_broadcast es sender p payload :
  let s := V100.exec es in
  V100.objects s !! sender = Some p →
  (V100.broadcast s sender payload).1 = s ∧
  (∀ k r q, (k, r) ∈ V100.peers s → V100.objects s !! r = Some q →
     filter (λ e, e.1 = r) (V100.broadcast s sender payload).2 =
       if decide (k ≠ V100.id p ∧ V100.socket q = OPEN)
       then [(r, V100.Broadcast (V100.id p) payload)] else []) ∧
  (∀ r m, (r, m) ∈ (V100.broadcast s sender payload).2 →
     m = V100.Broadcast (V100.id p) payload ∧
     ∃ k, (k, r) ∈ V100.peers s ∧ k ≠ V100.id p).
Proof.
  intros s Hp. pose proof (v100_wf_exec es) as Hwf. fold s in Hwf.
  unfold V100.broadcast. rewrite Hp. cbn [fst snd]. split_and!; [done| |].
  - intros k r q Hin Hq.
    destruct (V100.wf_ids _ Hwf k r Hin) as (q' & Hq' & Hid). simplify_eq.
    etrans; [apply (filter_fst_bind (M := V100.ServerMsg))|].
    + intros r' e. destruct (V100.objects s !! r'); [|by intros ?%elem_of_nil].
      case_decide; [|by intros ?%elem_of_nil]. by intros [-> _]%v100_elem_of_send.
    + by apply v100_order_NoDup.
    + apply list_elem_of_fmap. by exists (V100.id q, r).
    + rewrite Hq. unfold V100.send. rewrite Hq.
      destruct (decide (V100.id q ≠ V100.id p)), (decide (V100.socket q = OPEN));
        (rewrite decide_True by done) || (rewrite decide_False by tauto); done.
  - intros r m (r' & He & Hr')%list_elem_of_bind.
    destruct (V100.objects s !! r') as [q|] eqn:Hq; [|by apply elem_of_nil in He].
    case_decide as Hne; [|by apply elem_of_nil in He].
    apply v100_elem_of_send in He as [[= -> ->] _]. split; [done|].
    apply list_elem_of_fmap in Hr' as ([k r''] & -> & Hin). simpl in *.
    destruct (V100.wf_ids _ Hwf k r'' Hin) as (q' & Hq' & Hid). simplify_eq.
    exists (V100.id q). done.
Qed.

Lemma v100_broadcast_witness :
  filter (λ e, e.1 = 1) (V100.broadcast (V100.exec v100_three) 0 (Some (JStr "hi"))).2 =
    [(1, V100.Broadcast "0000000a" (Some (JStr "hi")))] ∧
  filter (λ e, e.1 = 2) (V100.broadcast (V100.exec v100_three) 0 (Some (JStr "hi"))).2 = [].
Proof.
  destruct (v100_broadcast v100_three 0 (V100.mkPeer OPEN "0000000a" true None)
              (Some (JStr "hi"))) as (_ & H & _); [reflexivity|].
  split.
  - apply (H "0000000b" 1 (V100.mkPeer OPEN "0000000b" true None)); [|reflexivity].
    apply (bool_decide_unpack _). by vm_compute.
  - apply (H "0000000c" 2 (V100.mkPeer CLOSING "0000000c" true None)); [|reflexivity].
    apply (bool_decide_unpack _). by vm_compute.
Defined.

Lemma v100_registered_object es r :
  r ∈ (V100.peers (V100.exec es)).*2 → is_Some (V100.objects (V100.exec es) !! r).
Proof.
  intros ([k r'] & -> & Hin)%list_elem_of_fmap.
  destruct (V100.wf_ids _ (v100_wf_exec es) k r' Hin) as (p & Hp & _). by exists p.
Qed.

Lemma v100_registered_object_after es r :
  r ∈ (V100.peers (V100.exec es)).*2 →
  r ∈ (V100.peers (V100.heartbeat (V100.exec es)).1).*2 ∧
  is_Some (V100.objects (V100.heartbeat (V100.exec es)).1 !! r).
Proof.
  intros Hr.
  pose proof (v100_wf_step (V100.exec es) V100.Heartbeat (v100_wf_exec es)) as Hwf.
  cbn [V100.step] in Hwf.
  assert (V100.peers (V100.heartbeat (V100.exec es)).1 = V100.peers (V100.exec es)) as Hreg.
  { unfold V100.heartbeat. by destruct (heartbeatLoop _ _ _ _ _). }
  destruct (V100.heartbeat (V100.exec es)) as [s1 cmds]. simpl in *.
  rewrite Hreg. split; [done|].
  apply list_elem_of_fmap in Hr as ([k r'] & -> & Hin). rewrite <- Hreg in Hin.
  destruct (V100.wf_ids _ Hwf k r' Hin) as (p & Hp & _). by exists p.
Qed.

Lemma v100_heartbeat_effect es :
  let s := V100.exec es in
  let s' := (V100.heartbeat s).1 in
  V100.peers s' = V100.peers s ∧
  (∀ r p, r ∈ (V100.peers s).*2 → V100.objects s !! r = Some p →
     V100.objects s' !! r =
       Some (if V100.isAlive p then V100.setAlive false p
             else V100.setSocket (terminate (V100.socket p)) p)) ∧
  (∀ r q, r ∈ (V100.peers s).*2 → V100.objects s' !! r = Some q →
     V100.isAlive q = false) ∧
  (∀ r, r ∉ (V100.peers s).*2 → V100.objects s' !! r = V100.objects s !! r) ∧
  (V100.heartbeat s).2 =
    map (λ r, if default false (V100.isAlive <$> V100.objects s !! r)
              then SendPing r else Terminate r) (V100.peers s).*2.
Proof.
  intros s s'. pose proof (v100_order_NoDup s (v100_wf_exec es)) as Hnd.
  pose proof (heartbeatLoop_in V100.isAlive (V100.setAlive false) V100.terminated _ Hnd
                (V100.objects s)) as Hin.
  pose proof (heartbeatLoop_notin V100.isAlive (V100.setAlive false) V100.terminated
                (V100.peers s).*2 (V100.objects s)) as Hnin.
  pose proof (heartbeatLoop_cmds_map V100.isAlive (V100.setAlive false) V100.terminated _
                (V100.objects s)
                (λ r, negb (default false (V100.isAlive <$> V100.objects s !! r))) Hnd)
    as Hcmds.
  subst s'. unfold V100.heartbeat.
  destruct (heartbeatLoop V100.isAlive (V100.setAlive false) V100.terminated
              (V100.objects s) _) as [objs cmds].
  simpl in *. split_and!; [done| | |done|].
  - intros r p Hr Hp. by rewrite (Hin r Hr), Hp.
  - intros r q Hr. rewrite (Hin r Hr). destruct (V100.objects s !! r) as [p|]; [|done].
    intros [= <-]. by destruct (V100.isAlive p) eqn:Ha.
  - rewrite Hcmds.
    + apply map_ext. intros r. by destruct (default false _).
    + intros r Hr. destruct (v100_registered_object es r Hr) as [q Hq].
      exists q. fold s in Hq. rewrite Hq. simpl. by rewrite negb_involutive.
Qed.

(** X19: one tick of the heartbeat of version 1.0.0 leaves the registry
    as it is and visits every registered peer once, in the order of the
    registry, changing no other peer object.  A peer that was alive is
    marked silent ([isAlive] false) and pinged; a peer that was already
    marked silent has its socket terminated, which leaves a CLOSED socket
    CLOSED and makes any other socket CLOSING, and is not pinged.  After
    the tick every registered peer is marked silent. *)
Theorem v100_heartbeat_tick es :
  let s := V100.exec es in
  let s' := (V100.heartbeat s).1 in
  V100.peers s' = V100.peers s ∧
  (∀ r p, r ∈ (V100.peers s).*2 → V100.objects s !! r = Some p →
     V100.objects s' !! r =
       Some (if V100.isAlive p then V100.setAlive false p
             else V100.setSocket (terminate (V100.socket p)) p)) ∧
  (∀ r q, r ∈ (V100.peers s).*2 → V100.objects s' !! r = Some q →
     V100.isAlive q = false) ∧
  (∀ r, r ∉ (V100.peers s).*2 → V100.objects s' !! r = V100.objects s !! r) ∧
  (V100.heartbeat s).2 =
    map (λ r, if default false (V100.isAlive <$> V100.objects s !! r)
              then SendPing r else Terminate r) (V100.peers s).*2.
Proof. apply v100_heartbeat_effect. Qed.

Lemma v100_run_app es1 es2 s :
  V100.run s (es1 ++ es2) =
  ((V100.run (V100.run s es1).1 es2).1,
   (V100.run s es1).2 ++ (V100.run (V100.run s es1).1 es2).2).
Proof.
  revert s. induction es1 as [|e es1 IH]; intros s; simpl.
  - by destruct (V100.run s es2).
  - destruct (V100.step s e) as [s1 o1]. rewrite IH.
    destruct (V100.run s1 es1) as [s2 o2]. simpl.
    destruct (V100.run s2 es2) as [s3 o3]. simpl. by rewrite app_assoc.
Qed.

Lemma v100_run_pongs ponged : ∀ s,
  V100.peers (V100.run s (map V100.Pong ponged)).1 = V100.peers s ∧
  (V100.run s (map V100.Pong ponged)).2 = [] ∧
  (∀ r, r ∉ ponged →
     V100.objects (V100.run s (map V100.Pong ponged)).1 !! r = V100.objects s !! r) ∧
  (∀ r p, r ∈ ponged → V100.objects s !! r = Some p →
     ∃ q, V100.objects (V100.run s (map V100.Pong ponged)).1 !! r = Some q ∧
          V100.isAlive q = true).
Proof.
  induction ponged as [|x rest IH]; intros s.
  { simpl. split_and!; [done..|]. by intros r p ?%elem_of_nil. }
  cbn [map V100.run V100.step].
  destruct (IH (V100.mkServer (alter (V100.setAlive true) x (V100.objects s)) (V100.peers s)))
    as (Hp & Hout & Hnin & Hin).
  destruct (V100.run _ (map V100.Pong rest)) as [s2 o2]. simpl in *.
  split_and!; [done..| |].
  - intros r [Hne Hr']%not_elem_of_cons. by rewrite Hnin, list_lookup_alter_ne.
  - intros r p Hr' Hobj. destruct (decide (r ∈ rest)) as [Hrest|Hrest].
    + destruct (decide (x = r)) as [->|Hne].
      * apply (Hin r (V100.setAlive true p)); [done|].
        by rewrite list_lookup_alter_eq, Hobj.
      * apply (Hin r p); [done|]. by rewrite list_lookup_alter_ne.
    + apply elem_of_cons in Hr' as [->|?]; [|done].
      exists (V100.setAlive true p). split; [|done].
      by rewrite Hnin, list_lookup_alter_eq, Hobj.
Qed.

(** X20: in version 1.0.0 a peer stays connected only if it answers.  When
    two ticks of the heartbeat follow each other with nothing but pongs in
    between, the commands of the run are those of the first tick followed
    by one command per registered peer, in the order of the registry: a
    ping for a peer that sent a pong, a [terminate] for every other one. *)
Theorem v100_heartbeat_terminates_silent_peers es ponged :
  let s := V100.exec es in
  (V100.run s (V100.Heartbeat :: map V100.Pong ponged ++ [V100.Heartbeat])).2 =
    map V100.Cmd (V100.heartbeat s).2 ++
    map (λ r, V100.Cmd (if bool_decide (r ∈ ponged) then SendPing r else Terminate r))
        (V100.peers s).*2.
Proof.
  intros s. pose proof (v100_order_NoDup s (v100_wf_exec es)) as Hnd.
  destruct (v100_heartbeat_effect es) as (Hreg & _ & Hsilent & _ & _).
  pose proof (λ r Hr, proj2 (v100_registered_object_after es r Hr)) as Hsome.
  fold s in Hreg, Hsilent, Hsome.
  cbn [V100.run V100.step]. destruct (V100.heartbeat s) as [s1 cmds1] eqn:Hs1.
  simpl in Hreg, Hsilent, Hsome. rewrite v100_run_app.
  destruct (v100_run_pongs ponged s1) as (Hreg2 & Hout2 & Hnin2 & Hin2).
  destruct (V100.run s1 (map V100.Pong ponged)) as [s2 o2]. simpl in *. subst o2.
  pose proof (heartbeatLoop_cmds_map V100.isAlive (V100.setAlive false) V100.terminated
                (V100.peers s).*2 (V100.objects s2)
                (λ r, negb (bool_decide (r ∈ ponged))) Hnd) as Hcmds.
  unfold V100.heartbeat. rewrite Hreg2, Hreg.
  destruct (heartbeatLoop V100.isAlive (V100.setAlive false) V100.terminated
              (V100.objects s2) _) as [objs cmds].
  simpl in *. rewrite app_nil_r. f_equal. rewrite Hcmds.
  - rewrite map_map. apply map_ext. intros r. by destruct (bool_decide _).
  - intros r Hr. destruct (Hsome r Hr) as [p Hp].
    rewrite negb_involutive. case_bool_decide as Hpong.
    + by apply (Hin2 r p).
    + exists p. rewrite Hnin2 by done. split; [done|]. by eapply Hsilent.
Qed.

(** X21: in version 1.0.0, a connection whose generated id is not in the
    registry, followed by the disconnect of the new peer, leaves the
    registry exactly as it was, order included; the connection welcomes the
    new peer with its id when its socket is OPEN, and the disconnect writes
    no frame. *)
Theorem v100_connect_then_close s sock randomBytes :
  generateId randomBytes ∉ (V100.peers s).*1 →
  let s1 := (V100.handleConnection s sock randomBytes).1 in
  V100.mapGet (generateId randomBytes) (V100.peers s1) = Some (length (V100.objects s)) ∧
  (sock = OPEN →
   (V100.handleConnection s sock randomBytes).2 =
     [(length (V100.objects s),
       V100.Welcome (generateId randomBytes) "Bem-vindo ao Pearl-2P Network")]) ∧
  V100.peers (V100.handleDisconnect s1 (length (V100.objects s))).1 = V100.peers s ∧
  (V100.handleDisconnect s1 (length (V100.objects s))).2 = [].
Proof.
  intros Hfresh. simpl. unfold V100.handleDisconnect, V100.send. simpl.
  rewrite lookup_app_r, Nat.sub_diag by done. simpl.
  split_and!; [apply mapGet_mapSet| |by apply mapDelete_mapSet|done].
  intros ->. done.
Qed.

Lemma v100_connect_then_close_witness :
  V100.peers (V100.handleDisconnect
                (V100.handleConnection (V100.exec v100_three) OPEN [x00; x00; x00; x0d]).1
                3).1
  = V100.peers (V100.exec v100_three).
Proof.
  destruct (v100_connect_then_close (V100.exec v100_three) OPEN [x00; x00; x00; x0d])
    as (_ & _ & H & _); [|exact H].
  apply (bool_decide_unpack _). by vm_compute.
Defined.

(** X22: routing in version 1.0.0.  In a reachable state, a [signal]
    addressed to a registered id is forwarded to the peer registered under
    it, tagged with the id of the sending peer object and with the payload
    untouched, when the socket of the target is OPEN; a [signal] addressed
    to the id of a peer that has just been disconnected is answered with
    [error] 404 to a sender whose socket is OPEN.  Neither changes the
    state. *)
Theorem v100_signal_routing es sender p :
  let s := V100.exec es in
  V100.objects s !! sender = Some p →
  (∀ k r q payload, (k, r) ∈ V100.peers s → V100.objects s !! r = Some q →
     V100.socket q = OPEN →
     V100.routeSignal s sender (Some k) payload =
       (s, [(r, V100.SignalTo (V100.id p) payload)])) ∧
  (∀ gone g payload, V100.objects s !! gone = Some g → V100.socket p = OPEN →
     let s1 := (V100.handleDisconnect s gone).1 in
     V100.routeSignal s1 sender (Some (V100.id g)) payload =
       (s1, [(sender, V100.Error 404 "Peer alvo não encontrado ou desconectado.")])).
Proof.
  intros s Hp. pose proof (v100_wf_exec es) as [Hk Hi]. fold s in Hk, Hi. split.
  - intros k r q payload Hin Hq Hopen. unfold V100.routeSignal. rewrite Hp. simpl.
    rewrite (elem_mapGet _ k r) by done. unfold V100.send. by rewrite Hq, decide_True.
  - intros gone g payload Hg Hopen. simpl. unfold V100.handleDisconnect. rewrite Hg.
    unfold V100.routeSignal. simpl. rewrite Hp. rewrite mapGet_mapDelete.
    unfold V100.send. by rewrite Hp, decide_True.
Qed.

Lemma v100_signal_routing_witness :
  V100.routeSignal (V100.exec v100_three) 0 (Some "0000000b") None =
    (V100.exec v100_three, [(1, V100.SignalTo "0000000a" None)]).
Proof.
  destruct (v100_signal_routing v100_three 0 (V100.mkPeer OPEN "0000000a" true None))
    as [H _]; [reflexivity|].
  apply (H "0000000b" 1 (V100.mkPeer OPEN "0000000b" true None)); [|reflexivity..].
  apply (bool_decide_unpack _). by vm_compute.
Defined.




(** ** More on connections and rooms of the server with rooms *)

(** X24: a peer is reachable as soon as it is connected, under the id of
    its [welcome]: the connection writes [welcome] with the generated id
    when the socket is OPEN, and a [signal] that any earlier peer then
    addresses to this id is forwarded to the new peer, with the sender's
    id, when the new socket is OPEN - also when the id was registered to
    another peer before. *)
Theorem connection_is_routable s socket randomBytes sender p payload :
  objects s !! sender = Some p →
  socket = OPEN →
  let s1 := (handleConnection s socket randomBytes).1 in
  (handleConnection s socket randomBytes).2 =
    [(length (objects s),
      Welcome (generateId randomBytes)
        "Conectado ao Pearl-2P. Aguardando dados da sala (join-room).")] ∧
  routeSignal s1 sender (Some (generateId randomBytes)) payload =
    (s1, [(length (objects s), SignalTo (Peer.id p) payload)]).
Proof.
  intros Hp ->. simpl. unfold send, routeSignal. simpl.
  rewrite lookup_app_r, Nat.sub_diag by done. simpl. split; [done|].
  rewrite (lookup_app_l_Some _ _ _ _ Hp). simpl.
  rewrite lookup_insert_eq. unfold send.
  by rewrite lookup_app_r, Nat.sub_diag by done.
Qed.

Lemma connection_is_routable_witness :
  routeSignal (handleConnection (exec hostAndClient) OPEN bytesC).1 0 (Some "0000000c") None =
    ((handleConnection (exec hostAndClient) OPEN bytesC).1, [(2, SignalTo "0000000a" None)]).
Proof.
  destruct (connection_is_routable (exec hostAndClient) OPEN bytesC 0
              (Peer.mk OPEN "0000000a" true (Some "game#default#boss") true) None)
    as [_ H]; [reflexivity..|exact H].
Defined.


Lemma peer_lookup_step s e r p :
  objects s !! r = Some p →
  ∃ p', objects (step s e).1 !! r = Some p' ∧ Peer.id p' = Peer.id p.
Proof.
  intros Hp. destruct (step_ids s e) as [k Hk].
  assert ((Peer.id <$> objects (step s e).1) !! r = Some (Peer.id p)) as Hl.
  { rewrite Hk. apply lookup_app_l_Some. by rewrite list_lookup_fmap, Hp. }
  rewrite list_lookup_fmap in Hl.
  destruct (objects (step s e).1 !! r) as [p'|]; simplify_eq/=. eauto.
Qed.

Lemma knownId_step s e i : knownId s i → knownId (step s e).1 i.
Proof.
  intros (r & p & Hp & Hid). destruct (peer_lookup_step s e r p Hp) as (p' & Hp' & Hid').
  exists r, p'. split; [done|congruence].
Qed.

Lemma room_origin s e k rm :
  rooms (step s e).1 !! k = Some rm →
  (∃ rm0, rooms s !! k = Some rm0 ∧ Room.hostId rm = Room.hostId rm0 ∧
          ∀ m, m ∈ Room.peers rm → m ∈ Room.peers rm0 ∨ knownId s m) ∨
  (knownId s (Room.hostId rm) ∧ Room.peers rm = []).
Proof.
  assert (rooms s !! k = Some rm →
          ∃ rm0, rooms s !! k = Some rm0 ∧ Room.hostId rm = Room.hostId rm0 ∧
                 ∀ m, m ∈ Room.peers rm → m ∈ Room.peers rm0 ∨ knownId s m) as Hsame.
  { intros Hrm. exists rm. split_and!; [done..|]. by left. }
  destruct e as [socket rnd|peer [payload|target payload|target payload|ty|]|peer|peer|peer|peer st];
    simpl; try (left; by apply Hsame).
  - unfold handleJoinRoom. destruct (objects s !! peer) as [p|] eqn:Hp; [|left; by apply Hsame].
    destruct payload as [pl|]; [|left; by apply Hsame].
    destruct (truthy (project pl) && truthy (room pl)); [|left; by apply Hsame].
    assert (knownId s (Peer.id p)) as Hknown by (by exists peer, p).
    destruct (rooms s !! roomKeyOf pl) as [rm0|] eqn:Hrm0; simpl;
      rewrite lookup_insert; case_decide as Hk; intros Hrm; simplify_eq.
    + left. exists rm0. split_and!; [done..|]. simpl.
      intros m [->|Hm]%elem_of_set_add; auto.
    + left. by apply Hsame.
    + by right.
    + left. by apply Hsame.
  - unfold routeSignal. destruct (objects s !! peer); [|left; by apply Hsame].
    destruct (_ ≫= _); left; by apply Hsame.
  - unfold routeData. destruct (objects s !! peer); [|left; by apply Hsame].
    destruct (_ ≫= _); left; by apply Hsame.
  - unfold handleDisconnect. destruct (objects s !! peer) as [p|]; [|left; by apply Hsame].
    destruct (if truthy (Peer.roomKey p) then Peer.roomKey p else None) as [k0|];
      [|left; by apply Hsame].
    destruct (rooms s !! k0) as [rm0|] eqn:Hrm0; [|left; by apply Hsame].
    destruct (Peer.isHost p).
    + destruct (notifyClients _ _ _) as [objs out]. simpl.
      intros [_ Hrm]%lookup_delete_Some. left. by apply Hsame.
    + simpl. rewrite lookup_insert. case_decide as Hk; intros Hrm; simplify_eq.
      * left. exists rm0. split_and!; [done..|]. simpl.
        intros m [_ Hm]%elem_of_set_delete. by left.
      * left. by apply Hsame.
Qed.

Lemma rooms_known_step s e :
  (∀ k rm, rooms s !! k = Some rm →
     knownId s (Room.hostId rm) ∧ ∀ m, m ∈ Room.peers rm → knownId s m) →
  ∀ k rm, rooms (step s e).1 !! k = Some rm →
    knownId (step s e).1 (Room.hostId rm) ∧ ∀ m, m ∈ Room.peers rm → knownId (step s e).1 m.
Proof.
  intros Hinv k rm [(rm0 & Hrm0 & Hh & Hm)|[Hh Hm]]%room_origin.
  - destruct (Hinv k rm0 Hrm0) as [H1 H2]. split.
    + rewrite Hh. by apply knownId_step.
    + intros m [Hin|Hin]%Hm; apply knownId_step; auto.
  - split; [by apply knownId_step|]. rewrite Hm. by intros m ?%elem_of_nil.
Qed.

Lemma rooms_known_run es : ∀ s,
  (∀ k rm, rooms s !! k = Some rm →
     knownId s (Room.hostId rm) ∧ ∀ m, m ∈ Room.peers rm → knownId s m) →
  ∀ k rm, rooms (run s es).1 !! k = Some rm →
    knownId (run s es).1 (Room.hostId rm) ∧ ∀ m, m ∈ Room.peers rm → knownId (run s es).1 m.
Proof.
  induction es as [|e es IH]; intros s Hinv; [done|]. simpl.
  pose proof (rooms_known_step s e Hinv) as Hstep.
  destruct (step s e) as [s1 o1]. specialize (IH s1 Hstep).
  by destruct (run s1 es) as [s2 o2].
Qed.

(** X25: rooms only hold identities that the server issued: in every
    reachable state, the [hostId] of a room and every id in its member set
    is the id of a peer object built at some connection. *)
Theorem rooms_hold_issued_ids es k rm :
  rooms (exec es) !! k = Some rm →
  knownId (exec es) (Room.hostId rm) ∧ ∀ m, m ∈ Room.peers rm → knownId (exec es) m.
Proof.
  revert k rm. apply rooms_known_run. intros k rm Hrm. simpl in Hrm.
  by rewrite lookup_empty in Hrm.
Qed.

Lemma rooms_hold_issued_ids_witness :
  knownId (exec hostAndClient) "0000000a" ∧
  ∀ m, m ∈ ["0000000b"] → knownId (exec hostAndClient) m.
Proof.
  apply (rooms_hold_issued_ids hostAndClient "game#default#boss"
           (Room.mk "0000000a" ["0000000b"])).
  reflexivity.
Defined.
